(** * The attribution pipeline: journey builder, submission loop, orchestrator

    A shallow embedding of [pipeline/cj_builder.py], [pipeline/api_client.py]
    and [pipeline/pipeline.py].  DataFrames are lists of row records (row
    order is the frame's order), SQLite tables are lists of rows, weights
    are IEEE 754 doubles (primitive floats), Python exceptions are an
    explicit error result, and the scoring service is an oracle from request
    bodies to HTTP outcomes. *)

From Stdlib Require Import List String Ascii ZArith Floats Bool Lia Sorted.
From Stdlib Require Import Decimal DecimalString DecimalZ DecimalPos.
From Stdlib Require Import Permutation.
Import ListNotations.

Local Open Scope string_scope.
Local Open Scope list_scope.
Local Open Scope Z_scope.

Set Warnings "-inexact-float".

(* ================================================================== *)
(** * Tables of the SQLite store *)
(* ================================================================== *)

(** A row of table [conversions]. *)
Record conversion := {
  conv_id : string;
  conv_user_id : string;
  conv_date : string;
  conv_time : string
}.

(** A row of table [session_sources]. *)
Record session_source := {
  ss_session_id : string;
  ss_user_id : string;
  ss_event_date : string;
  ss_event_time : string;
  ss_channel_name : string;
  ss_holder_engagement : Z;
  ss_closer_engagement : Z;
  ss_impression_interaction : Z
}.

(** A row of table [attribution_customer_journey]; the weight is a double. *)
Record attribution_row := {
  ar_conv_id : string;
  ar_session_id : string;
  ar_ihc : float
}.

Record database := {
  conversions : list conversion;
  session_sources : list session_source;
  attribution_customer_journey : list attribution_row
}.

(* ================================================================== *)
(** * cj_builder.py *)
(* ================================================================== *)

(** The frame [conversions_df] after [pd.to_datetime]. *)
Record conversion_rec := {
  cr_conv_id : string;
  cr_user_id : string;
  cr_timestamp : Z
}.

(** The frame [session_sources_df] after [pd.to_datetime]. *)
Record session_rec := {
  sr_session_id : string;
  sr_user_id : string;
  sr_timestamp : Z;
  sr_channel_name : string;
  sr_holder_engagement : Z;
  sr_closer_engagement : Z;
  sr_impression_interaction : Z
}.

(** A row of a journey frame, with the eight columns selected in
    [build_journeys].  The timestamp column holds datetimes ([T := Z]) inside
    the loop and strings ([T := string]) in the frame that is returned. *)
Record journey_row (T : Type) := {
  jr_conversion_id : string;
  jr_session_id : string;
  jr_timestamp : T;
  jr_channel_label : string;
  jr_holder_engagement : Z;
  jr_closer_engagement : Z;
  jr_conversion : Z;
  jr_impression_interaction : Z
}.
Arguments jr_conversion_id {T} _.
Arguments jr_session_id {T} _.
Arguments jr_timestamp {T} _.
Arguments jr_channel_label {T} _.
Arguments jr_holder_engagement {T} _.
Arguments jr_closer_engagement {T} _.
Arguments jr_conversion {T} _.
Arguments jr_impression_interaction {T} _.

(** The frame handed from the builder to the submission loop. *)
Definition journeys_frame := list (journey_row string).

(** Truth value of an [Optional[str]] argument: [None] and [''] are false. *)
Definition str_truthy (o : option string) : bool :=
  match o with
  | Some s => negb (String.eqb s "")
  | None => false
  end.

(** The [WHERE] clause built from the date arguments.  An argument that is
    not empty is pasted between single quotes into the text of the query.
    The filters below are what that text means for an argument in the
    documented format YYYY-MM-DD: the comparison of [conv_date] with the
    argument as text, byte by byte, which is [String.leb].  An argument that
    holds a single quote ends the literal early and changes the statement;
    that is not modelled. *)
Definition conv_date_filters (start_date end_date : option string)
  : list (conversion -> bool) :=
  (match start_date with
   | Some s => if str_truthy start_date
               then [fun c => String.leb s (conv_date c)] else []
   | None => []
   end) ++
  (match end_date with
   | Some e => if str_truthy end_date
               then [fun c => String.leb (conv_date c) e] else []
   | None => []
   end).

Definition conv_query (db : database) (start_date end_date : option string)
  : list conversion :=
  filter (fun c => forallb (fun f => f c) (conv_date_filters start_date end_date))
         (conversions db).

Section JourneyBuilder.

(** [pd.to_datetime] and [strftime('%Y-%m-%d %H:%M:%S')].  The parser of
    timestamps is taken as a function on all texts: the builder is modelled
    for a database whose date and time texts all parse.  On a text that is
    no timestamp [pd.to_datetime] raises, and [build_journeys] then ends in
    that exception before any journey is built; that path is not
    modelled. *)
Variable to_datetime : string -> Z.
Variable strftime : Z -> string.

Definition read_conversions (db : database) (start_date end_date : option string)
  : list conversion_rec :=
  map (fun c => {| cr_conv_id := conv_id c;
                   cr_user_id := conv_user_id c;
                   cr_timestamp := to_datetime (conv_date c ++ " " ++ conv_time c)%string |})
      (conv_query db start_date end_date).

Definition read_session_sources (db : database) : list session_rec :=
  map (fun s => {| sr_session_id := ss_session_id s;
                   sr_user_id := ss_user_id s;
                   sr_timestamp := to_datetime (ss_event_date s ++ " " ++ ss_event_time s)%string;
                   sr_channel_name := ss_channel_name s;
                   sr_holder_engagement := ss_holder_engagement s;
                   sr_closer_engagement := ss_closer_engagement s;
                   sr_impression_interaction := ss_impression_interaction s |})
      (session_sources db).

(** The two boolean-mask selections of the loop body. *)
Definition user_sessions (session_sources_df : list session_rec)
           (conv_row : conversion_rec) : list session_rec :=
  filter (fun s => sr_timestamp s <=? cr_timestamp conv_row)
         (filter (fun s => String.eqb (sr_user_id s) (cr_user_id conv_row)) session_sources_df).

(** Columns added, renamed and reordered for one selected session. *)
Definition journey_of_session (conv_row : conversion_rec) (s : session_rec)
  : journey_row Z :=
  {| jr_conversion_id := cr_conv_id conv_row;
     jr_session_id := sr_session_id s;
     jr_timestamp := sr_timestamp s;
     jr_channel_label := sr_channel_name s;
     jr_holder_engagement := sr_holder_engagement s;
     jr_closer_engagement := sr_closer_engagement s;
     jr_conversion := 0;
     jr_impression_interaction := sr_impression_interaction s |}.

Definition journey_data (conv_row : conversion_rec) (us : list session_rec)
  : list (journey_row Z) :=
  map (journey_of_session conv_row) us.

(** The list [all_journeys] at the end of the loop over conversions. *)
Fixpoint all_journeys (conversions_df : list conversion_rec)
         (session_sources_df : list session_rec) : list (list (journey_row Z)) :=
  match conversions_df with
  | [] => []
  | conv_row :: rest =>
      let us := user_sessions session_sources_df conv_row in
      match us with
      | [] => all_journeys rest session_sources_df
      | _ :: _ => journey_data conv_row us :: all_journeys rest session_sources_df
      end
  end.

Definition format_row (r : journey_row Z) : journey_row string :=
  {| jr_conversion_id := jr_conversion_id r;
     jr_session_id := jr_session_id r;
     jr_timestamp := strftime (jr_timestamp r);
     jr_channel_label := jr_channel_label r;
     jr_holder_engagement := jr_holder_engagement r;
     jr_closer_engagement := jr_closer_engagement r;
     jr_conversion := jr_conversion r;
     jr_impression_interaction := jr_impression_interaction r |}.

(** [pd.concat(all_journeys)], the frame before its timestamps are
    rendered. *)
Definition customer_journeys_df (db : database) (start_date end_date : option string)
  : list (journey_row Z) :=
  List.concat (all_journeys (read_conversions db start_date end_date)
                            (read_session_sources db)).

Definition build_journeys (db : database) (start_date end_date : option string)
  : journeys_frame :=
  let conversions_df := read_conversions db start_date end_date in
  let session_sources_df := read_session_sources db in
  match all_journeys conversions_df session_sources_df with
  | [] => []
  | js => map format_row (List.concat js)
  end.

(** The rows that one conversion contributes to the returned frame. *)
Definition contribution (db : database) (conv_row : conversion_rec)
  : journeys_frame :=
  map format_row
      (journey_data conv_row (user_sessions (read_session_sources db) conv_row)).

End JourneyBuilder.

(** The journey of one conversion inside a frame: its rows, in frame order. *)
Definition journey_of {T} (cid : string) (df : list (journey_row T))
  : list (journey_row T) :=
  filter (fun r => String.eqb (jr_conversion_id r) cid) df.

(* ================================================================== *)
(** * The intermediate artifact: pandas' [to_csv] and [read_csv] *)
(* ================================================================== *)

(** [to_csv] and [read_csv] are functions of pandas, not of this repository.
    They are modelled here from their documented behaviour with the default
    arguments that [save_to_csv] and [main] leave them: the writer of
    Python's [csv] module with minimal quoting and a line feed as the line
    terminator, the tokenizer of pandas' C parser, and the inference of the
    column types.  A Python [str] is the string of its UTF-8 bytes.  What
    the model does not cover is marked as such ([NotModelled]) instead of
    being guessed. *)

(** The value of a DataFrame cell: a Python [str], an integer, or NaN. *)
Inductive cell :=
| Text (s : string)
| Int (z : Z)
| NaN.

Record frame := {
  columns : list string;
  rows : list (list cell)
}.

(** The file: a text. *)
Definition csv_text := string.

Definition TAB : ascii := "009"%char.
Definition LF : ascii := "010"%char.
Definition CR : ascii := "013"%char.
Definition DQUOTE : ascii := "034"%char.
Definition COMMA : ascii := ","%char.

Definition journey_columns : list string :=
  ["conversion_id"; "session_id"; "timestamp"; "channel_label";
   "holder_engagement"; "closer_engagement"; "conversion"; "impression_interaction"].

(** The frame that [build_journeys] returns, cell by cell: the ids, the
    rendered timestamp and the channel are [str], the flags are integers. *)
Definition cells_of_journey_row (r : journey_row string) : list cell :=
  [Text (jr_conversion_id r); Text (jr_session_id r); Text (jr_timestamp r);
   Text (jr_channel_label r);
   Int (jr_holder_engagement r); Int (jr_closer_engagement r);
   Int (jr_conversion r); Int (jr_impression_interaction r)].

Definition frame_of_journeys (df : journeys_frame) : frame :=
  {| columns := journey_columns; rows := map cells_of_journey_row df |}.

(** [str(z)] *)
Definition str_of_int (z : Z) : string := NilZero.string_of_int (Z.to_int z).

(** How [to_csv] renders a cell; NaN is written as the empty field. *)
Definition field_of_cell (c : cell) : string :=
  match c with
  | Text s => s
  | Int z => str_of_int z
  | NaN => ""
  end.


Fixpoint string_existsb (f : ascii -> bool) (s : string) : bool :=
  match s with
  | EmptyString => false
  | String a rest => f a || string_existsb f rest
  end.


(** ** The writer *)

(** With minimal quoting a field is quoted when it holds the delimiter, the
    quote character or a character of the line terminator, which is the line
    feed; a carriage return alone does not make the writer quote. *)
Definition special_char (a : ascii) : bool :=
  (Ascii.eqb a COMMA || Ascii.eqb a DQUOTE || Ascii.eqb a LF)%bool.

Definition needs_quotes (s : string) : bool := string_existsb special_char s.

(** Inside quotes every quote character is doubled. *)
Fixpoint double_quotes (s : string) : string :=
  match s with
  | EmptyString => EmptyString
  | String a rest =>
      if Ascii.eqb a DQUOTE
      then String DQUOTE (String DQUOTE (double_quotes rest))
      else String a (double_quotes rest)
  end.

Definition write_field (s : string) : string :=
  if needs_quotes s
  then String DQUOTE (double_quotes s ++ String DQUOTE EmptyString)
  else s.

(** A record: the fields joined by commas, then a line feed.  A record that
    is one empty field is written as two quotes. *)
Definition write_record (fields : list string) : string :=
  match fields with
  | [EmptyString] => String DQUOTE (String DQUOTE (String LF EmptyString))
  | _ => String.concat "," (map write_field fields) ++ String LF EmptyString
  end.

(** [DataFrame.to_csv(path, index=False)]: the header record, then one
    record per row. *)
Definition to_csv (f : frame) : csv_text :=
  String.concat "" (map write_record (columns f :: map (map field_of_cell) (rows f))).

(** The file that [save_to_csv] writes. *)
Definition save_to_csv (journeys_df : journeys_frame) : csv_text :=
  to_csv (frame_of_journeys journeys_df).

(** ** The tokenizer *)

(** The states of the tokenizer that the default arguments can reach.  In
    [WHITESPACE_LINE] the blanks seen since the start of the line are kept:
    the tokenizer goes back to them when the line turns out not to be
    blank. *)
Inductive tokenizer_state :=
| START_RECORD
| START_FIELD
| IN_FIELD
| IN_QUOTED_FIELD
| QUOTE_IN_QUOTED_FIELD
| EAT_CRNL
| EAT_CRNL_NOP
| WHITESPACE_LINE (blanks : string).

Record tokenizer := {
  tk_state : tokenizer_state;
  tk_word : string;                 (* the field being read *)
  tk_line : list string;            (* the fields of the line being read *)
  tk_lines : list (list string)     (* the lines read *)
}.

Definition set_state (st : tokenizer_state) (t : tokenizer) : tokenizer :=
  {| tk_state := st; tk_word := tk_word t; tk_line := tk_line t;
     tk_lines := tk_lines t |}.

Definition push_char (c : ascii) (t : tokenizer) : tokenizer :=
  {| tk_state := tk_state t; tk_word := tk_word t ++ String c EmptyString;
     tk_line := tk_line t; tk_lines := tk_lines t |}.

Definition end_field (t : tokenizer) : tokenizer :=
  {| tk_state := tk_state t; tk_word := EmptyString;
     tk_line := tk_line t ++ [tk_word t]; tk_lines := tk_lines t |}.

Definition end_line (t : tokenizer) : tokenizer :=
  {| tk_state := tk_state t; tk_word := tk_word t; tk_line := [];
     tk_lines := tk_lines t ++ [tk_line t] |}.

Definition is_blank (c : ascii) : bool := (Ascii.eqb c " " || Ascii.eqb c TAB)%bool.

Definition start_field (t : tokenizer) (c : ascii) : tokenizer :=
  if Ascii.eqb c LF then set_state START_RECORD (end_line (end_field t))
  else if Ascii.eqb c CR then set_state EAT_CRNL (end_field t)
  else if Ascii.eqb c DQUOTE then set_state IN_QUOTED_FIELD t
  else if Ascii.eqb c COMMA then set_state START_FIELD (end_field t)
  else set_state IN_FIELD (push_char c t).

Definition in_field (t : tokenizer) (c : ascii) : tokenizer :=
  if Ascii.eqb c LF then set_state START_RECORD (end_line (end_field t))
  else if Ascii.eqb c CR then set_state EAT_CRNL (end_field t)
  else if Ascii.eqb c COMMA then set_state START_FIELD (end_field t)
  else set_state IN_FIELD (push_char c t).

(** Empty lines are skipped; a line that starts with a blank is first
    scanned for being blank altogether. *)
Definition start_record (t : tokenizer) (c : ascii) : tokenizer :=
  if Ascii.eqb c LF then set_state START_RECORD t
  else if Ascii.eqb c CR then set_state EAT_CRNL_NOP t
  else if is_blank c then set_state (WHITESPACE_LINE (String c EmptyString)) t
  else start_field t c.

Definition step (t : tokenizer) (c : ascii) : tokenizer :=
  match tk_state t with
  | START_RECORD => start_record t c
  | START_FIELD => start_field t c
  | IN_FIELD => in_field t c
  | IN_QUOTED_FIELD =>
      if Ascii.eqb c DQUOTE then set_state QUOTE_IN_QUOTED_FIELD t
      else push_char c t
  | QUOTE_IN_QUOTED_FIELD =>
      if Ascii.eqb c DQUOTE then set_state IN_QUOTED_FIELD (push_char c t)
      else in_field t c
  | EAT_CRNL =>
      if Ascii.eqb c LF then set_state START_RECORD (end_line t)
      else if Ascii.eqb c COMMA
           then set_state START_FIELD (end_field (end_line t))
           else start_record (end_line t) c
  | EAT_CRNL_NOP =>
      if (Ascii.eqb c LF || Ascii.eqb c COMMA)%bool then set_state START_RECORD t
      else start_record t c
  | WHITESPACE_LINE blanks =>
      if Ascii.eqb c LF then set_state START_RECORD t
      else if Ascii.eqb c CR then set_state EAT_CRNL_NOP t
      else if is_blank c
           then set_state (WHITESPACE_LINE (blanks ++ String c EmptyString)) t
           else in_field {| tk_state := IN_FIELD; tk_word := blanks;
                            tk_line := tk_line t; tk_lines := tk_lines t |} c
  end.




(** ** The types of the columns *)

















(* ================================================================== *)
(** * Python results, exceptions and the effect monad *)
(* ================================================================== *)

Inductive exn :=
| KeyError (key : string)
| ZeroDivisionError
| ValueError.

Inductive result (A : Type) :=
| Ok (a : A)
| Raise (e : exn).
Arguments Ok {A} a.
Arguments Raise {A} e.

Definition rbind {A B} (r : result A) (f : A -> result B) : result B :=
  match r with
  | Ok a => f a
  | Raise e => Raise e
  end.

(** What a run does to the outside: calls to the scoring service and the
    lines it prints. *)
Inductive event :=
| Post (journey_data : journeys_frame)
| PrintStatusError (status_code : Z)
| PrintStatusCode (statusCode : option Z)
| PrintRequestError
| PrintPartialFailure (errors : list string)
| PrintProcessing (total_conversions : Z)
| PrintLimits (max_journeys max_sessions : Z)
| PrintExceeds (chunk_num : Z)
| PrintSkipping (conv_id : string) (num_sessions : Z)
| PrintProcessingConversion (conv_id : string) (num_sessions : Z)
| PrintSending (chunk_num total_chunks num_sessions num_conversions : Z)
| CheckSums (rows : list attribution_row)
| PrintWrote (records : Z)
| PrintCompleted (total_processed total_records : Z)
| PrintVerification (conversions_in_db : Z)
| PrintHalt (message : string)
| PrintStep (banner : string)
| Sleep
| SaveCsv (path : string) (file : csv_text)
| Report (path : string).

(** The mutable world: the SQLite store and the events so far, oldest
    first. *)
Record world := {
  store : database;
  out : list event
}.

Definition table (w : world) : list attribution_row :=
  attribution_customer_journey (store w).

Definition M (A : Type) := world -> world * result A.

Definition ret {A} (a : A) : M A := fun w => (w, Ok a).

Definition raise {A} (e : exn) : M A := fun w => (w, Raise e).

Definition bind {A B} (c : M A) (f : A -> M B) : M B :=
  fun w =>
    match c w with
    | (w', Ok a) => f a w'
    | (w', Raise e) => (w', Raise e)
    end.

Definition lift {A} (r : result A) : M A := fun w => (w, r).

Definition emit (e : event) : M unit :=
  fun w => ({| store := store w; out := out w ++ [e] |}, Ok tt).

Definition get_table : M (list attribution_row) := fun w => (w, Ok (table w)).

Definition set_table (t : list attribution_row) : M unit :=
  fun w => ({| store := {| conversions := conversions (store w);
                           session_sources := session_sources (store w);
                           attribution_customer_journey := t |};
               out := out w |}, Ok tt).

Definition get_store : M database := fun w => (w, Ok (store w)).

Declare Scope py_scope.
Delimit Scope py_scope with py.
Notation "x <- c1 ;; c2" := (bind c1 (fun x => c2))
  (at level 61, c1 at next level, right associativity) : py_scope.
Notation "c1 ;; c2" := (bind c1 (fun _ => c2))
  (at level 61, right associativity) : py_scope.
Local Open Scope py_scope.

(** A [for] loop over a list that threads the loop-carried variables. *)
Fixpoint for_each {X S} (xs : list X) (body : X -> S -> M S) (s : S) : M S :=
  match xs with
  | [] => ret s
  | x :: rest => s' <- body x s ;; for_each rest body s'
  end.

(* ================================================================== *)
(** * api_client.py *)
(* ================================================================== *)

Record PipelineConfig := {
  db_name : string;
  api_key : string;
  conv_type_id : string;
  max_journeys_per_request : Z;
  max_sessions_per_request : Z
}.

(** One dict of the response's [value] array; a key the dict lacks is
    [None].  A weight is a JSON real, which [response.json()] reads as a
    Python [float]: an IEEE 754 double, here a primitive float. *)
Record ihc_result := {
  res_conversion_id : option string;
  res_session_id : option string;
  res_ihc : option float
}.

(** The parsed body of a response. *)
Inductive response_json :=
| JsonOther
    (* valid JSON that is no object: [results.get] raises AttributeError *)
| JsonObject (statusCode : option Z)
             (partialFailureErrors : list string)
             (value : option (list ihc_result)).
    (* [value = None]: the object has no key 'value' *)

(** What [requests.post] and [response.json()] can do. *)
Inductive http_outcome :=
| RequestException
| Response (status_code : Z) (body : option response_json).
    (* [body = None]: the text is not JSON, [response.json()] raises *)

Definition list_truthy {A} (o : option (list A)) : bool :=
  match o with
  | Some (_ :: _) => true
  | _ => false
  end.

Definition len {A} (l : list A) : Z := Z.of_nat (List.length l).

Section ApiClient.

Variable config : PipelineConfig.
(** The scoring service. *)
Variable api : journeys_frame -> http_outcome.

(** [send_journeys_to_api]: every exception inside the [try] is caught and
    turned into [None]. *)
Definition send_journeys_to_api (journey_data : journeys_frame)
  : M (option (list ihc_result)) :=
  emit (Post journey_data) ;;
  match api journey_data with
  | RequestException => emit PrintRequestError ;; ret None
  | Response status_code body =>
      if negb (status_code =? 200) then
        emit (PrintStatusError status_code) ;; ret None
      else
        match body with
        | None => emit PrintRequestError ;; ret None
        | Some JsonOther => emit PrintRequestError ;; ret None
        | Some (JsonObject code errs value) =>
            emit (PrintStatusCode code) ;;
            (match errs with
             | [] => ret tt
             | _ :: _ => emit (PrintPartialFailure errs)
             end) ;;
            ret (Some (match value with Some v => v | None => [] end))
        end
  end.

(** [conversions[conv_id].append(result)] on an insertion-ordered dict. *)
Fixpoint dict_append {R} (conversions : list (string * list R))
         (conv_id : string) (r : R) : list (string * list R) :=
  match conversions with
  | [] => [(conv_id, [r])]
  | (k, rs) :: rest =>
      if String.eqb k conv_id then (k, rs ++ [r]) :: rest
      else (k, rs) :: dict_append rest conv_id r
  end.

(** The grouping loop; [result['conversion_id']] raises on a dict without
    the key. *)
Fixpoint group_by_conversion (ihc_results : list ihc_result)
         (conversions : list (string * list ihc_result))
  : result (list (string * list ihc_result)) :=
  match ihc_results with
  | [] => Ok conversions
  | r :: rest =>
      match res_conversion_id r with
      | None => Raise (KeyError "conversion_id")
      | Some conv_id => group_by_conversion rest (dict_append conversions conv_id r)
      end
  end.

(** [sum(session['ihc'] for session in sessions)]: the doubles are added one
    after the other from the left, each addition rounded, starting from 0
    (the integer 0 of [sum] behaves as +0.0 here).  This is the plain
    summation of CPython's [sum]; an interpreter whose [sum] carries a
    compensation term (CPython from 3.12 on) can differ in the last bits of
    a sum that is not exact. *)
Fixpoint ihc_sum_from (acc : float) (sessions : list ihc_result) : result float :=
  match sessions with
  | [] => Ok acc
  | s :: rest =>
      match res_ihc s with
      | None => Raise (KeyError "ihc")
      | Some x => ihc_sum_from (acc + x)%float rest
      end
  end.

Definition ihc_sum_of (sessions : list ihc_result) : result float :=
  ihc_sum_from 0%float sessions.

(** [session['ihc'] = session['ihc'] / ihc_sum]; Python's [/] on floats
    raises when the divisor compares equal to zero (+0.0 or -0.0), and is
    the rounded IEEE quotient otherwise. *)
Definition rescale (ihc_sum : float) (session : ihc_result) : result ihc_result :=
  match res_ihc session with
  | None => Raise (KeyError "ihc")
  | Some x =>
      if (ihc_sum =? 0)%float then Raise ZeroDivisionError
      else Ok {| res_conversion_id := res_conversion_id session;
                 res_session_id := res_session_id session;
                 res_ihc := Some (x / ihc_sum)%float |}
  end.

Fixpoint rescale_all (ihc_sum : float) (sessions : list ihc_result)
  : result (list ihc_result) :=
  match sessions with
  | [] => Ok []
  | s :: rest =>
      rbind (rescale ihc_sum s) (fun s' =>
      rbind (rescale_all ihc_sum rest) (fun rest' => Ok (s' :: rest')))
  end.

(** [abs(ihc_sum - 1.0) > 0.0001], on doubles; false when the sum is NaN. *)
Definition off_by_more_than_tolerance (ihc_sum : float) : bool :=
  (0.0001 <? PrimFloat.abs (ihc_sum - 1))%float.

(** The body of the loop over [conversions.items()]; its two [print]
    calls write to the console only and are left out. *)
Definition normalize_sessions (sessions : list ihc_result)
  : result (list ihc_result) :=
  rbind (ihc_sum_of sessions) (fun ihc_sum =>
  rbind (if off_by_more_than_tolerance ihc_sum
         then rescale_all ihc_sum sessions
         else Ok sessions) (fun sessions' =>
  rbind (ihc_sum_of sessions') (fun new_sum =>
  Ok sessions'))).

Fixpoint normalize_groups (conversions : list (string * list ihc_result))
         (validated_results : list ihc_result) : result (list ihc_result) :=
  match conversions with
  | [] => Ok validated_results
  | (conv_id, sessions) :: rest =>
      rbind (normalize_sessions sessions) (fun sessions' =>
      normalize_groups rest (validated_results ++ sessions'))
  end.

Definition validate_ihc_results (ihc_results : list ihc_result)
  : result (list ihc_result) :=
  match ihc_results with
  | [] => Ok []
  | _ :: _ =>
      rbind (group_by_conversion ihc_results []) (fun conversions =>
      normalize_groups conversions [])
  end.

(** The [rows] list of [write_ihc_to_db]. *)
Fixpoint extract_rows (ihc_results : list ihc_result) : result (list attribution_row) :=
  match ihc_results with
  | [] => Ok []
  | r :: rest =>
      match res_conversion_id r, res_session_id r, res_ihc r with
      | None, _, _ => Raise (KeyError "conversion_id")
      | Some _, None, _ => Raise (KeyError "session_id")
      | Some _, Some _, None => Raise (KeyError "ihc")
      | Some c, Some s, Some x =>
          rbind (extract_rows rest) (fun rows =>
          Ok ({| ar_conv_id := c; ar_session_id := s; ar_ihc := x |} :: rows))
      end
  end.

(** [write_ihc_to_db]: the rows are extracted, the sums are checked once
    more, then [DELETE FROM attribution_customer_journey], one [INSERT] per
    row and [commit].  The check groups the rows with pandas, sums each
    group and prints a warning for each sum off 1 by more than 1e-4; it is
    recorded as the one event [CheckSums rows], whatever lines it prints.
    The SQL statements are modelled as SQLite executes them on a table that
    takes the rows.  The DELETE is committed on a connection of its own
    before the first INSERT, so in the code an INSERT that SQLite refuses
    would leave the table empty; such a failure of the database is not
    modelled, and what is proved of a write is proved of a write that
    SQLite carries out. *)
Definition write_ihc_to_db (ihc_results : list ihc_result) : M Z :=
  match ihc_results with
  | [] => ret 0
  | _ :: _ =>
      rows <- lift (extract_rows ihc_results) ;;
      emit (CheckSums rows) ;;
      set_table [] ;;
      t <- get_table ;;
      set_table (t ++ rows) ;;
      ret (len rows)
  end.

(** [journeys_df['conversion_id'].unique()]: first occurrences, in order. *)
Fixpoint unique_from (seen : list string) (l : list string) : list string :=
  match l with
  | [] => []
  | x :: rest =>
      if existsb (String.eqb x) seen then unique_from seen rest
      else x :: unique_from (x :: seen) rest
  end.

Definition unique (l : list string) : list string := unique_from [] l.

(** [len(range(start, stop, step))] for a non-zero step. *)
Definition range_length (start stop step : Z) : Z :=
  if 0 <? step
  then (if start <? stop then (stop - start - 1) / step + 1 else 0)
  else (if stop <? start then (start - stop - 1) / (- step) + 1 else 0).

(** [range(start, stop, step)]; a zero step raises ValueError. *)
Definition py_range (start stop step : Z) : result (list Z) :=
  if step =? 0 then Raise ValueError
  else Ok (map (fun k => start + Z.of_nat k * step)
               (seq 0 (Z.to_nat (range_length start stop step)))).

(** [a[i:j]] for indices that are not negative. *)
Definition slice {A} (a : list A) (i j : Z) : list A :=
  firstn (Z.to_nat (j - i)) (skipn (Z.to_nat i) a).

(** [journeys_df[journeys_df['conversion_id'].isin(conversion_chunk)]] *)
Definition rows_isin (journeys_df : journeys_frame) (conversion_chunk : list string)
  : journeys_frame :=
  filter (fun r => existsb (String.eqb (jr_conversion_id r)) conversion_chunk)
         journeys_df.

(** [journeys_df[journeys_df['conversion_id'] == conv_id]] *)
Definition rows_eq (journeys_df : journeys_frame) (conv_id : string)
  : journeys_frame :=
  filter (fun r => String.eqb (jr_conversion_id r) conv_id) journeys_df.

(** The block both branches of the loop share: send, and on a non-empty
    answer validate, write and count; then sleep.  The pair carried is
    [(total_processed, total_records)]. *)
Definition send_validate_write (journey_data : journeys_frame)
           (num_conversions : Z) (totals : Z * Z) : M (Z * Z) :=
  results <- send_journeys_to_api journey_data ;;
  totals' <- (if list_truthy results then
                validated_results <-
                  lift (validate_ihc_results
                          (match results with Some v => v | None => [] end)) ;;
                records <- write_ihc_to_db validated_results ;;
                emit (PrintWrote records) ;;
                ret (fst totals + num_conversions, snd totals + records)
              else ret totals) ;;
  emit Sleep ;;
  ret totals'.

(** The inner loop body: one conversion of a chunk over the session limit. *)
Definition process_single (journeys_df : journeys_frame) (conv_id : string)
           (totals : Z * Z) : M (Z * Z) :=
  let single_conv_df := rows_eq journeys_df conv_id in
  let num_sessions := len single_conv_df in
  if num_sessions >? max_sessions_per_request config then
    emit (PrintSkipping conv_id num_sessions) ;; ret totals
  else
    emit (PrintProcessingConversion conv_id num_sessions) ;;
    send_validate_write single_conv_df 1 totals.

(** The outer loop body: the chunk that starts at index [i]. *)
Definition process_chunk (journeys_df : journeys_frame)
           (unique_conversions : list string) (i : Z) (totals : Z * Z)
  : M (Z * Z) :=
  let conversion_chunk :=
    slice unique_conversions i (i + max_journeys_per_request config) in
  let chunk_num := i / max_journeys_per_request config + 1 in
  let total_chunks :=
    (len unique_conversions - 1) / max_journeys_per_request config + 1 in
  let journey_chunk_df := rows_isin journeys_df conversion_chunk in
  if len journey_chunk_df >? max_sessions_per_request config then
    emit (PrintExceeds chunk_num) ;;
    for_each conversion_chunk (process_single journeys_df) totals
  else
    emit (PrintSending chunk_num total_chunks (len journey_chunk_df)
                       (len conversion_chunk)) ;;
    send_validate_write journey_chunk_df (len conversion_chunk) totals.

(** [verify_ihc_data]: reads the table back, grouped by conversion, and
    prints what it finds; the lines are recorded as one event that carries
    the number of conversions in the table. *)
Definition verify_ihc_data : M unit :=
  t <- get_table ;;
  emit (PrintVerification (len (unique (map ar_conv_id t)))).

Definition process_journeys (journeys_df : journeys_frame) : M Z :=
  match journeys_df with
  | [] => emit (PrintHalt "No journeys to process") ;; ret 0
  | _ :: _ =>
      let unique_conversions := unique (map jr_conversion_id journeys_df) in
      let total_conversions := len unique_conversions in
      emit (PrintProcessing total_conversions) ;;
      emit (PrintLimits (max_journeys_per_request config)
                        (max_sessions_per_request config)) ;;
      starts <- lift (py_range 0 total_conversions (max_journeys_per_request config)) ;;
      totals <- for_each starts (process_chunk journeys_df unique_conversions) (0, 0) ;;
      emit (PrintCompleted (fst totals) (snd totals)) ;;
      verify_ihc_data ;;
      ret (snd totals)
  end.

End ApiClient.

(* ================================================================== *)
(** * pipeline.py *)
(* ================================================================== *)

Definition banner_step1 : string := "===== STEP 1: Building Customer Journeys =====".
Definition banner_step2 : string :=
  "===== STEP 2: Sending to IHC API and Writing Results =====".
Definition banner_step3 : string := "===== STEP 3: Generating Channel Reporting =====".
Definition banner_done : string := "===== Pipeline Completed Successfully =====".

Section Pipeline.

Variable to_datetime : string -> Z.
Variable strftime : Z -> string.
Variable config : PipelineConfig.
Variable api : journeys_frame -> http_outcome.

(** [CustomerJourneyBuilder.build_and_save] *)
Definition build_and_save (output_path : string)
           (start_date end_date : option string) : M journeys_frame :=
  db <- get_store ;;
  let journeys_df := build_journeys to_datetime strftime db start_date end_date in
  (match journeys_df with
   | [] => emit (PrintHalt "No customer journeys were found for the given date range")
   | _ :: _ => emit (SaveCsv output_path (save_to_csv journeys_df))
   end) ;;
  ret journeys_df.

Definition run_step_build_journeys (output_path : string)
           (start_date end_date : option string) : M journeys_frame :=
  emit (PrintStep banner_step1) ;;
  build_and_save output_path start_date end_date.

Definition run_step_send_to_api (journeys_df : journeys_frame) : M Z :=
  emit (PrintStep banner_step2) ;;
  process_journeys config api journeys_df.

(** The reporter of [channel_reporter.py] is not embedded: its run is
    recorded as the one event [Report], and neither what it computes nor
    whether it raises is modelled. *)
Definition run_step_generate_report (output_path : string)
           (start_date end_date : option string) : M unit :=
  emit (PrintStep banner_step3) ;;
  emit (Report output_path).

(** [run_pipeline]; it is declared [-> None] and every exit is a bare
    [return] or the end of the body. *)
Definition run_pipeline (journeys_path report_path : string)
           (start_date end_date : option string) : M unit :=
  journeys_df <- run_step_build_journeys journeys_path start_date end_date ;;
  match journeys_df with
  | [] => emit (PrintHalt "No journeys were found. Pipeline cannot continue.")
  | _ :: _ =>
      records <- run_step_send_to_api journeys_df ;;
      if records =? 0 then
        emit (PrintHalt "No IHC records were written. Pipeline cannot continue.")
      else
        run_step_generate_report report_path start_date end_date ;;
        emit (PrintStep banner_done)
  end.

End Pipeline.

(* ================================================================== *)
(** * A concrete clock for the examples *)
(* ================================================================== *)

(** Reads the decimal digits of a text and skips everything else, so that
    '2024-01-02 10:00:00' is the number 20240102100000. *)
Fixpoint digits_value (acc : Z) (s : string) : Z :=
  match s with
  | EmptyString => acc
  | String a rest =>
      let n := Z.of_N (N_of_ascii a) in
      if (48 <=? n) && (n <=? 57)
      then digits_value (10 * acc + (n - 48)) rest
      else digits_value acc rest
  end.

Definition example_to_datetime (s : string) : Z := digits_value 0 s.

Definition digit_char (z : Z) : ascii := ascii_of_N (Z.to_N (48 + z mod 10)).

Definition pad2 (z : Z) : string :=
  String (digit_char (z / 10)) (String (digit_char z) EmptyString).

(** Renders YYYYMMDDHHMMSS as '%Y-%m-%d %H:%M:%S'. *)
Definition example_strftime (z : Z) : string :=
  (pad2 (z / 10 ^ 12) ++ pad2 (z / 10 ^ 10) ++ "-" ++ pad2 (z / 10 ^ 8) ++ "-" ++
   pad2 (z / 10 ^ 6) ++ " " ++ pad2 (z / 10 ^ 4) ++ ":" ++ pad2 (z / 10 ^ 2) ++ ":" ++
   pad2 z)%string.


(* ================================================================== *)
(** * Statements about the journey builder *)
(* ================================================================== *)

Definition by_occurred_at (a b : journey_row Z) : Prop :=
  jr_timestamp a <= jr_timestamp b.

Definition by_session_time (a b : session_rec) : Prop :=
  sr_timestamp a <= sr_timestamp b.

(** The mask of [user_sessions] as one test. *)
Definition selected (conv_row : conversion_rec) (s : session_rec) : bool :=
  String.eqb (sr_user_id s) (cr_user_id conv_row)
  && (sr_timestamp s <=? cr_timestamp conv_row).

(** "Every emitted journey lists its touchpoints by [occurred_at]
    ascending, whatever the order of the session records." *)
Definition journeys_in_time_order (to_datetime : string -> Z) (db : database)
           (start_date end_date : option string) : Prop :=
  forall c,
    In c (read_conversions to_datetime db start_date end_date) ->
    user_sessions (read_session_sources to_datetime db) c <> [] ->
    StronglySorted by_occurred_at
      (journey_of (cr_conv_id c) (customer_journeys_df to_datetime db start_date end_date)).

Definition example_session (sid uid d t : string) : session_source :=
  {| ss_session_id := sid; ss_user_id := uid;
     ss_event_date := d; ss_event_time := t;
     ss_channel_name := "Email";
     ss_holder_engagement := 1; ss_closer_engagement := 0;
     ss_impression_interaction := 0 |}.

Definition example_conversion (cid uid d t : string) : conversion :=
  {| conv_id := cid; conv_user_id := uid; conv_date := d; conv_time := t |}.

(** Scenario A with the session records stored in time order. *)
Definition scenario_a : database :=
  {| conversions := [example_conversion "C1" "U1" "2024-01-02" "10:00:00"];
     session_sources :=
       [example_session "S1" "U1" "2024-01-01" "09:00:00";
        example_session "S2" "U1" "2024-01-02" "10:00:00";
        example_session "S3" "U1" "2024-01-03" "11:00:00"];
     attribution_customer_journey := [] |}.

(** Scenario A with the same records stored in another order. *)
Definition scenario_a_shuffled : database :=
  {| conversions := [example_conversion "C1" "U1" "2024-01-02" "10:00:00"];
     session_sources :=
       [example_session "S2" "U1" "2024-01-02" "10:00:00";
        example_session "S1" "U1" "2024-01-01" "09:00:00";
        example_session "S3" "U1" "2024-01-03" "11:00:00"];
     attribution_customer_journey := [] |}.

(* ================================================================== *)
(** * Statements about the submission loop *)
(* ================================================================== *)

(** What the loop decides for a group of journeys: send it as one request,
    or report a conversion as skipped. *)
Inductive decision :=
| Submit (journey_data : journeys_frame)
| Skip (conv_id : string) (num_sessions : Z).

Definition decision_of_event (e : event) : option decision :=
  match e with
  | Post journey_data => Some (Submit journey_data)
  | PrintSkipping conv_id num_sessions => Some (Skip conv_id num_sessions)
  | _ => None
  end.

Definition banner_of_event (e : event) : option string :=
  match e with
  | PrintStep banner => Some banner
  | _ => None
  end.

(** The part of a trace that a reading [p] of events keeps. *)
Fixpoint project {X} (p : event -> option X) (evs : list event) : list X :=
  match evs with
  | [] => []
  | e :: rest =>
      match p e with
      | Some x => x :: project p rest
      | None => project p rest
      end
  end.

Definition decisions (evs : list event) : list decision :=
  project decision_of_event evs.

Definition banners (evs : list event) : list string :=
  project banner_of_event evs.

Definition prefix_of {X} (pre l : list X) : Prop := exists suf, l = pre ++ suf.

(** A computation adds to the [p]-reading of the trace a prefix of [xs], and
    all of [xs] when it returns. *)
Definition tracks {X A} (p : event -> option X) (c : M A) (xs : list X) : Prop :=
  forall w,
    exists pre,
      project p (out (fst (c w))) = project p (out w) ++ pre
      /\ prefix_of pre xs
      /\ (forall a, snd (c w) = Ok a -> pre = xs).

Section BatchPlan.

Variable config : PipelineConfig.

(** The decision of the inner loop for one conversion. *)
Definition single_decision (journeys_df : journeys_frame) (conv_id : string)
  : decision :=
  let single_conv_df := rows_eq journeys_df conv_id in
  if len single_conv_df >? max_sessions_per_request config
  then Skip conv_id (len single_conv_df)
  else Submit single_conv_df.

(** The decisions of the outer loop for the chunk that starts at [i]. *)
Definition chunk_decisions (journeys_df : journeys_frame)
           (unique_conversions : list string) (i : Z) : list decision :=
  let conversion_chunk :=
    slice unique_conversions i (i + max_journeys_per_request config) in
  let journey_chunk_df := rows_isin journeys_df conversion_chunk in
  if len journey_chunk_df >? max_sessions_per_request config
  then map (single_decision journeys_df) conversion_chunk
  else [Submit journey_chunk_df].

(** The decisions of a whole run, in order. *)
Definition batch_plan (journeys_df : journeys_frame) : list decision :=
  let unique_conversions := unique (map jr_conversion_id journeys_df) in
  match journeys_df, py_range 0 (len unique_conversions)
                              (max_journeys_per_request config) with
  | _ :: _, Ok starts =>
      flat_map (chunk_decisions journeys_df unique_conversions) starts
  | _, _ => []
  end.

End BatchPlan.

(** Journeys and touchpoints of a request. *)
Definition n_journeys (journey_data : journeys_frame) : Z :=
  len (unique (map jr_conversion_id journey_data)).

Definition n_touchpoints (journey_data : journeys_frame) : Z := len journey_data.

(** Whether a decision deals with conversion [c]. *)
Definition covers (c : string) (d : decision) : bool :=
  match d with
  | Submit journey_data =>
      existsb (fun r => String.eqb (jr_conversion_id r) c) journey_data
  | Skip conv_id _ => String.eqb conv_id c
  end.

(** A decision about [c] is sound: a request holds the whole journey of [c],
    a skip reports a journey that alone is over the session limit. *)
Definition decision_sound (config : PipelineConfig) (journeys_df : journeys_frame)
           (c : string) (d : decision) : Prop :=
  match d with
  | Submit journey_data => journey_of c journey_data = journey_of c journeys_df
  | Skip conv_id num_sessions =>
      num_sessions = len (journey_of c journeys_df)
      /\ num_sessions > max_sessions_per_request config
  end.

(** The world a run starts from: a store and an empty trace. *)
Definition initial_world (db : database) : world := {| store := db; out := [] |}.

(** "Every request is within both limits, and every journey of the input is
    in exactly one request or reported as skipped." *)
Definition partition_claim (config : PipelineConfig)
           (api : journeys_frame -> http_outcome)
           (journeys_df : journeys_frame) (db : database) : Prop :=
  let ds := decisions (out (fst (process_journeys config api journeys_df
                                                  (initial_world db)))) in
  (forall journey_data,
      In (Submit journey_data) ds ->
      n_journeys journey_data <= max_journeys_per_request config
      /\ n_touchpoints journey_data <= max_sessions_per_request config)
  /\ (forall c,
         In c (map jr_conversion_id journeys_df) ->
         exists d, filter (covers c) ds = [d]
                   /\ decision_sound config journeys_df c d).

(** Events of the submission loop other than requests and skip reports. *)
Definition quiet_event (e : event) : bool :=
  match e with
  | Post _ | PrintSkipping _ _ | PrintStep _ | SaveCsv _ _ | Report _ => false
  | _ => true
  end.

Definition event_of_decision (d : decision) : event :=
  match d with
  | Submit journey_data => Post journey_data
  | Skip conv_id num_sessions => PrintSkipping conv_id num_sessions
  end.

Definition opt_list {X} (o : option X) : list X :=
  match o with
  | Some x => [x]
  | None => []
  end.

(** How a reading [p] of events sees a decision. *)
Definition reading {X} (p : event -> option X) (d : decision) : list X :=
  opt_list (p (event_of_decision d)).

(** The decisions for one chunk of conversion ids. *)
Definition chunk_plan (config : PipelineConfig) (journeys_df : journeys_frame)
           (conversion_chunk : list string) : list decision :=
  if len (rows_isin journeys_df conversion_chunk) >? max_sessions_per_request config
  then map (single_decision config journeys_df) conversion_chunk
  else [Submit (rows_isin journeys_df conversion_chunk)].

(* ================================================================== *)
(** * Example inputs of the submission loop *)
(* ================================================================== *)

Definition example_row (cid sid : string) : journey_row string :=
  {| jr_conversion_id := cid; jr_session_id := sid;
     jr_timestamp := "2024-01-01 09:00:00"; jr_channel_label := "Email";
     jr_holder_engagement := 1; jr_closer_engagement := 0;
     jr_conversion := 0; jr_impression_interaction := 0 |}.

(** Two journeys of one session each. *)
Definition two_journeys : journeys_frame :=
  [example_row "c1" "s1"; example_row "c2" "s2"].

(** A configuration that sends one journey per request. *)
Definition one_per_request : PipelineConfig :=
  {| db_name := "challenge.db"; api_key := "key"; conv_type_id := "ct";
     max_journeys_per_request := 1; max_sessions_per_request := 10 |}.

Definition empty_db : database :=
  {| conversions := []; session_sources := []; attribution_customer_journey := [] |}.

(** A dict with all three keys. *)
Definition full_result (cid sid : string) (w : float) : ihc_result :=
  {| res_conversion_id := Some cid; res_session_id := Some sid; res_ihc := Some w |}.

(** A service that answers 200 and gives every session of the request the
    weight [w]. *)
Definition api_uniform (w : float) (journey_data : journeys_frame) : http_outcome :=
  Response 200
    (Some (JsonObject (Some 200) []
             (Some (map (fun r => full_result (jr_conversion_id r) (jr_session_id r) w)
                        journey_data)))).

(* ================================================================== *)
(** * Statements about the normalizer *)
(* ================================================================== *)

(** A weight row as the dict the service returns for it. *)
Definition to_result (r : attribution_row) : ihc_result :=
  full_result (ar_conv_id r) (ar_session_id r) (ar_ihc r).

(** The rows of one conversion, in order. *)
Definition weights_of (c : string) (rows : list attribution_row)
  : list attribution_row :=
  filter (fun r => String.eqb (ar_conv_id r) c) rows.

(** The sum of the weights of some rows, added from the left as [sum] does. *)
Definition weight_sum (rows : list attribution_row) : float :=
  fold_left PrimFloat.add (map ar_ihc rows) 0%float.

Definition scaled (s : float) (r : attribution_row) : attribution_row :=
  {| ar_conv_id := ar_conv_id r;
     ar_session_id := ar_session_id r;
     ar_ihc := (ar_ihc r / s)%float |}.

(** What the normalizer is to do with the rows of one conversion. *)
Definition normalized (g : list attribution_row) : list attribution_row :=
  if off_by_more_than_tolerance (weight_sum g)
  then map (scaled (weight_sum g)) g
  else g.

(** The grouping loop on weight rows. *)
Definition group_rows (rows : list attribution_row)
           (conversions : list (string * list attribution_row))
  : list (string * list attribution_row) :=
  fold_left (fun d r => dict_append d (ar_conv_id r) r) rows conversions.

Definition dict_results (d : list (string * list attribution_row))
  : list (string * list ihc_result) :=
  map (fun kv => (fst kv, map to_result (snd kv))) d.

(** [conversions.get(k)] *)
Fixpoint dict_get {R} (d : list (string * list R)) (k : string) : option (list R) :=
  match d with
  | [] => None
  | (k', g) :: rest => if String.eqb k' k then Some g else dict_get rest k
  end.

(** The dict holds, under distinct keys, the rows seen so far by conversion. *)
Definition grouped (d : list (string * list attribution_row))
           (seen : list attribution_row) : Prop :=
  NoDup (map fst d)
  /\ (forall k, dict_get d k
                = if existsb (String.eqb k) (map ar_conv_id seen)
                  then Some (weights_of k seen) else None).

(** "Every group with a non-zero sum is rescaled to sum 1 (within the
    tolerance) when it is off by more than the tolerance, and passes through
    unchanged otherwise."  Sums, quotients and comparisons are those of
    doubles. *)
Definition normalizer_claim (rows : list attribution_row) : Prop :=
  forall c,
    In c (map ar_conv_id rows) ->
    let g := weights_of c rows in
    let s := weight_sum g in
    (s =? 0)%float = false ->
    exists validated,
      validate_ihc_results (map to_result rows) = Ok (map to_result validated)
      /\ (off_by_more_than_tolerance s = true ->
          weights_of c validated = map (scaled s) g
          /\ off_by_more_than_tolerance (weight_sum (weights_of c validated)) = false)
      /\ (off_by_more_than_tolerance s = false ->
          weights_of c validated = g).

(** Scenario B. *)
Definition scenario_b : list attribution_row :=
  [ {| ar_conv_id := "C2"; ar_session_id := "S1"; ar_ihc := 0.3 |};
    {| ar_conv_id := "C2"; ar_session_id := "S2"; ar_ihc := 0.3 |} ].

(** Scenario B after a conversion whose weights sum to 0. *)
Definition scenario_b_after_zero : list attribution_row :=
  {| ar_conv_id := "C1"; ar_session_id := "S0"; ar_ihc := 0 |} :: scenario_b.

(** A service that answers 200 with rows that lack the key 'ihc'. *)
Definition api_missing_ihc (journey_data : journeys_frame) : http_outcome :=
  Response 200
    (Some (JsonObject (Some 200) []
             (Some (map (fun r => {| res_conversion_id := Some (jr_conversion_id r);
                                     res_session_id := Some (jr_session_id r);
                                     res_ihc := None |})
                        journey_data)))).

(** The answers that [send_journeys_to_api] turns into [None]: the request
    raises, the status is not 200, the body is not JSON, or it is JSON but no
    object. *)
Definition failed_submission (o : http_outcome) : Prop :=
  match o with
  | RequestException => True
  | Response status_code body =>
      status_code <> 200 \/ body = None \/ body = Some JsonOther
  end.

(* ================================================================== *)
(** * Statements about the orchestrator *)
(* ================================================================== *)

(** A stage was attempted when its banner was printed. *)
Definition stage_attempted (banner : string) (w : world) : Prop :=
  In banner (banners (out w)).

(** The world in which the submission stage of [run_pipeline] starts. *)
Definition world_at_submission (db : database) (journeys_path : string)
           (journeys_df : journeys_frame) : world :=
  {| store := db;
     out := [PrintStep banner_step1; SaveCsv journeys_path (save_to_csv journeys_df);
             PrintStep banner_step2] |}.

(** "A run that a gate blocks reports failure to its caller": some reading
    of the value that [run_pipeline] returns is false for every run that a
    gate blocks (no journeys built, or a count of 0 rows written) and true
    for every run that completes. *)
Definition gate_reports_failure : Prop :=
  exists success : result unit -> bool,
    forall (to_datetime : string -> Z) (strftime : Z -> string)
           (config : PipelineConfig) (api : journeys_frame -> http_outcome)
           (db : database) (journeys_path report_path : string)
           (start_date end_date : option string),
      let run := run_pipeline to_datetime strftime config api journeys_path
                              report_path start_date end_date (initial_world db) in
      let journeys_df := build_journeys to_datetime strftime db start_date end_date in
      (journeys_df = [] -> success (snd run) = false)
      /\ (journeys_df <> [] ->
          snd (process_journeys config api journeys_df
                                (world_at_submission db journeys_path journeys_df))
          = Ok 0 ->
          success (snd run) = false)
      /\ (stage_attempted banner_done (fst run) -> success (snd run) = true).

(** The service of scenario B's happy twin: every session gets weight 1/2. *)
Definition api_halves : journeys_frame -> http_outcome := api_uniform 0.5.

(* ================================================================== *)
(** * Statements about the intermediate artifact *)
(* ================================================================== *)







(* ================================================================== *)
(** * Further statements about the normalizer and the writer *)
(* ================================================================== *)

(** The two ids of a dict of the response. *)
Definition result_ids (r : ihc_result) : option string * option string :=
  (res_conversion_id r, res_session_id r).

(** All the dicts held by the grouping dict, group after group. *)
Definition dict_values {R} (d : list (string * list R)) : list R :=
  List.concat (map snd d).

(** What the normalizer returns for weight rows: the conversions in the
    order of their first row, each with its rows in order and normalized. *)
Definition validated_rows (rows : list attribution_row) : list attribution_row :=
  flat_map (fun c => normalized (weights_of c rows)) (unique (map ar_conv_id rows)).

(** No conversion of the response has weights whose sum, as [sum] computes
    it, compares equal to zero. *)
Definition no_zero_sum (rows : list attribution_row) : Prop :=
  forall c, In c (map ar_conv_id rows) ->
            (weight_sum (weights_of c rows) =? 0)%float = false.

(** A computation that returns [a], appends to the trace and leaves the
    store as it is. *)
Definition leaves_store {A} (c : M A) (a : A) : Prop :=
  forall w, exists evs,
    c w = ({| store := store w; out := out w ++ evs |}, Ok a).


(** A store whose table holds the rows of an earlier run. *)
Definition db_after_earlier_run : database :=
  {| conversions := []; session_sources := [];
     attribution_customer_journey := scenario_b |}.

Definition is_skip (d : decision) : Prop :=
  match d with
  | Skip _ _ => True
  | Submit _ => False
  end.

(** A configuration whose session limit lets nothing through. *)
Definition no_sessions_allowed : PipelineConfig :=
  {| db_name := "challenge.db"; api_key := "key"; conv_type_id := "ct";
     max_journeys_per_request := 1; max_sessions_per_request := 0 |}.

(** A configuration with room for both journeys of the example in one
    request. *)
Definition roomy : PipelineConfig :=
  {| db_name := "challenge.db"; api_key := "key"; conv_type_id := "ct";
     max_journeys_per_request := 100; max_sessions_per_request := 200 |}.

(* ================================================================== *)
(** * Statements about what a run writes *)
(* ================================================================== *)

Definition wrote_of_event (e : event) : option Z :=
  match e with
  | PrintWrote records => Some records
  | _ => None
  end.

(** The counts of the writes of a trace, oldest first. *)
Definition writes (evs : list event) : list Z := project wrote_of_event evs.

Definition Zsum (l : list Z) : Z := fold_right Z.add 0 l.

(** The table agrees with the writes of the trace: untouched when there was
    none, and of the size of the last write otherwise; every write wrote at
    least one row. *)
Definition accounted (t0 : list attribution_row) (w : world) : Prop :=
  Forall (fun n => 0 < n) (writes (out w))
  /\ (writes (out w) = [] -> table w = t0)
  /\ (writes (out w) <> [] -> len (table w) = last (writes (out w)) 0).

(** The totals carried by the loop agree with the writes of the trace. *)
Definition totals_accounted (t0 : list attribution_row) (totals : Z * Z)
           (w : world) : Prop :=
  accounted t0 w /\ snd totals = Zsum (writes (out w)).

(** A triple for the effect monad: from a world in [P] the computation ends
    in [Q] when it returns and in [E] when it raises. *)
Definition triple {A} (P : world -> Prop) (c : M A) (Q : A -> world -> Prop)
           (E : world -> Prop) : Prop :=
  forall w, P w ->
    match c w with
    | (w', Ok a) => Q a w'
    | (w', Raise _) => E w'
    end.

(* ================================================================== *)
(** * Further statements about the journey builder and the orchestrator *)
(* ================================================================== *)

(** The conversion has at least one selected session. *)
Definition has_sessions (sessions : list session_rec) (c : conversion_rec) : bool :=
  match user_sessions sessions c with
  | [] => false
  | _ :: _ => true
  end.

(** The date [d] passes the bounds that are given and not empty; text is
    compared as SQLite does, both bounds included. *)
Definition within_dates (start_date end_date : option string) (d : string) : Prop :=
  (forall s, start_date = Some s -> s <> "" -> String.leb s d = true)
  /\ (forall e, end_date = Some e -> e <> "" -> String.leb d e = true).

(** A date argument in the format that [build_journeys] documents,
    YYYY-MM-DD.  Such an argument holds no single quote, so the text of the
    query holds it as the string literal it is meant to be, and it is no
    number, so SQLite compares it with [conv_date] as text. *)
Definition is_digit (a : ascii) : bool :=
  let n := N_of_ascii a in ((48 <=? n)%N && (n <=? 57)%N)%bool.

Definition date_format (s : string) : bool :=
  match list_ascii_of_string s with
  | [y1; y2; y3; y4; h1; m1; m2; h2; d1; d2] =>
      forallb is_digit [y1; y2; y3; y4; m1; m2; d1; d2]
      && Ascii.eqb h1 "-" && Ascii.eqb h2 "-"
  | _ => false
  end.

(** A date argument as a caller is to give it: absent, empty, or a date in
    the documented format. *)
Definition date_argument (o : option string) : Prop :=
  forall s, o = Some s -> s <> "" -> date_format s = true.

(** Two conversions of U1, one day apart. *)
Definition two_conversions : database :=
  {| conversions := [example_conversion "C1" "U1" "2024-01-02" "10:00:00";
                     example_conversion "C2" "U1" "2024-01-03" "11:00:00"];
     session_sources :=
       [example_session "S1" "U1" "2024-01-01" "09:00:00";
        example_session "S2" "U1" "2024-01-02" "10:00:00";
        example_session "S3" "U1" "2024-01-03" "11:00:00"];
     attribution_customer_journey := [] |}.
(* ================================================================== *)
(** * Theorems *)
(* ================================================================== *)

Example example_clock_round_trip :
  example_strftime (example_to_datetime "2024-01-02 10:30:05") = "2024-01-02 10:30:05".
Proof. reflexivity. Qed.

(* ------------------------------------------------------------------ *)
(** ** Lists *)
(* ------------------------------------------------------------------ *)

Lemma filter_all_true {A} (f : A -> bool) (l : list A) :
  (forall x, In x l -> f x = true) -> filter f l = l.
Proof.
  induction l as [|a l IH]; intros H; simpl; [reflexivity|].
  rewrite (H a (or_introl eq_refl)). f_equal. apply IH.
  intros x Hx. apply H. now right.
Qed.

Lemma filter_all_false {A} (f : A -> bool) (l : list A) :
  (forall x, In x l -> f x = false) -> filter f l = [].
Proof.
  induction l as [|a l IH]; intros H; simpl; [reflexivity|].
  rewrite (H a (or_introl eq_refl)). apply IH.
  intros x Hx. apply H. now right.
Qed.

Lemma filter_twice {A} (f g : A -> bool) (l : list A) :
  filter f (filter g l) = filter (fun x => g x && f x) l.
Proof.
  induction l as [|a l IH]; simpl; [reflexivity|].
  destruct (g a); simpl; [destruct (f a)|]; now rewrite IH.
Qed.

Lemma flat_map_flat_map {A B C} (f : B -> list C) (g : A -> list B) (l : list A) :
  flat_map f (flat_map g l) = flat_map (fun a => flat_map f (g a)) l.
Proof.
  induction l as [|a l IH]; simpl; [reflexivity|].
  now rewrite flat_map_app, IH.
Qed.

Lemma NoDup_app_separate {A} (l1 l2 : list A) (a : A) :
  NoDup (l1 ++ l2) -> In a l1 -> In a l2 -> False.
Proof.
  induction l1 as [|x l1 IH]; simpl; intros Hnd H1 H2; [exact H1|].
  inversion Hnd as [|? ? Hnotin Hnd']; subst.
  destruct H1 as [->|H1]; [|now apply IH].
  apply Hnotin, in_or_app. now right.
Qed.

Lemma flat_map_after_map {A B C} (f : B -> list C) (g : A -> B) (l : list A) :
  flat_map f (map g l) = flat_map (fun a => f (g a)) l.
Proof.
  induction l as [|a l IH]; simpl; [reflexivity|]. now rewrite IH.
Qed.

Lemma NoDup_concat_In {A} (chunks : list (list A)) (ch : list A) :
  NoDup (List.concat chunks) -> In ch chunks -> NoDup ch.
Proof.
  induction chunks as [|a l IH]; simpl; intros Hnd Hin; [destruct Hin|].
  destruct Hin as [->|Hin].
  - eapply NoDup_app_remove_r; eauto.
  - apply IH; [eapply NoDup_app_remove_l; eauto|exact Hin].
Qed.

Lemma StronglySorted_filter {A} (R : A -> A -> Prop) (f : A -> bool) (l : list A) :
  StronglySorted R l -> StronglySorted R (filter f l).
Proof.
  induction 1 as [|a l Hs IH Hall]; simpl; [constructor|].
  destruct (f a); [|exact IH].
  constructor; [exact IH|].
  rewrite Forall_forall in *. intros x Hx.
  apply filter_In in Hx. apply Hall. tauto.
Qed.

Lemma StronglySorted_map {A B} (R : A -> A -> Prop) (R' : B -> B -> Prop)
      (f : A -> B) (l : list A) :
  (forall a b, R a b -> R' (f a) (f b)) ->
  StronglySorted R l -> StronglySorted R' (map f l).
Proof.
  intros Hf. induction 1 as [|a l Hs IH Hall]; simpl; constructor; [exact IH|].
  rewrite Forall_forall in *. intros y Hy.
  apply in_map_iff in Hy. destruct Hy as [x [<- Hx]]. auto.
Qed.

(* ------------------------------------------------------------------ *)
(** ** The journey builder *)
(* ------------------------------------------------------------------ *)

Section JourneyBuilderFacts.

Variable to_datetime : string -> Z.
Variable strftime : Z -> string.

Lemma user_sessions_selected ss c :
  user_sessions ss c = filter (selected c) ss.
Proof. unfold user_sessions, selected. apply filter_twice. Qed.

Lemma concat_all_journeys cs ss :
  List.concat (all_journeys cs ss)
  = flat_map (fun c => journey_data c (user_sessions ss c)) cs.
Proof.
  induction cs as [|c cs IH]; simpl; [reflexivity|].
  destruct (user_sessions ss c) eqn:E; simpl; rewrite IH; reflexivity.
Qed.

Lemma build_journeys_formats db s e :
  build_journeys to_datetime strftime db s e
  = map (format_row strftime) (customer_journeys_df to_datetime db s e).
Proof.
  unfold build_journeys, customer_journeys_df.
  destruct (all_journeys _ _); reflexivity.
Qed.

Lemma build_journeys_contributions db s e :
  build_journeys to_datetime strftime db s e
  = flat_map (contribution to_datetime strftime db) (read_conversions to_datetime db s e).
Proof.
  rewrite build_journeys_formats. unfold customer_journeys_df.
  rewrite concat_all_journeys. unfold contribution.
  induction (read_conversions to_datetime db s e) as [|c cs IH]; simpl;
    [reflexivity|].
  rewrite map_app, IH. reflexivity.
Qed.

Lemma contribution_conversion_id db c r :
  In r (contribution to_datetime strftime db c) -> jr_conversion_id r = cr_conv_id c.
Proof.
  unfold contribution, journey_data. rewrite map_map.
  intros H. apply in_map_iff in H. destruct H as [x [<- _]]. reflexivity.
Qed.

Lemma journey_of_flat_map {T} (g : conversion_rec -> list (journey_row T)) cs c :
  (forall c' r, In r (g c') -> jr_conversion_id r = cr_conv_id c') ->
  In c cs -> NoDup (map cr_conv_id cs) ->
  journey_of (cr_conv_id c) (flat_map g cs) = g c.
Proof.
  intros Hg. unfold journey_of.
  induction cs as [|a cs IH]; intros Hin Hnd; [destruct Hin|].
  simpl. rewrite filter_app. inversion Hnd as [|? ? Hnotin Hnd']; subst.
  destruct Hin as [->|Hin].
  - rewrite filter_all_true, filter_all_false; [apply app_nil_r| |].
    + intros r Hr. apply in_flat_map in Hr. destruct Hr as [c' [Hc' Hr]].
      apply Hg in Hr. rewrite Hr.
      apply String.eqb_neq. intros Heq. apply Hnotin. rewrite <- Heq.
      now apply in_map.
    + intros r Hr. apply Hg in Hr. rewrite Hr.
      apply String.eqb_refl.
  - rewrite filter_all_false, IH; auto.
    intros r Hr. apply Hg in Hr. rewrite Hr.
    apply String.eqb_neq. intros Heq. apply Hnotin. rewrite Heq.
    now apply in_map.
Qed.

Lemma journey_of_format cid (df : list (journey_row Z)) :
  journey_of cid (map (format_row strftime) df)
  = map (format_row strftime) (journey_of cid df).
Proof.
  unfold journey_of. induction df as [|r df IH]; simpl; [reflexivity|].
  destruct (String.eqb (jr_conversion_id r) cid); simpl; now rewrite IH.
Qed.

End JourneyBuilderFacts.

(** C6. A session is part of a conversion's journey only if it belongs to the
    conversion's user and happened no later than the conversion: every row
    that [build_journeys] returns is the rendering of such a session for a
    conversion of the query; the selection made for a conversion is exactly
    the sessions that pass both tests, so one with a later timestamp is never
    in it; the returned frame is the conversions' contributions one after the
    other, and a conversion with an empty selection contributes no row. *)
Theorem build_journeys_selects_own_earlier_sessions :
  forall (to_datetime : string -> Z) (strftime : Z -> string)
         (db : database) (start_date end_date : option string),
    let convs := read_conversions to_datetime db start_date end_date in
    let sessions := read_session_sources to_datetime db in
    Forall (fun r => exists c x,
                In c convs /\ In x sessions /\
                r = format_row strftime (journey_of_session c x) /\
                sr_user_id x = cr_user_id c /\
                sr_timestamp x <= cr_timestamp c)
           (build_journeys to_datetime strftime db start_date end_date)
    /\ (forall c x, In x (user_sessions sessions c) <->
                    In x sessions /\ sr_user_id x = cr_user_id c /\
                    sr_timestamp x <= cr_timestamp c)
    /\ (forall c x, cr_timestamp c < sr_timestamp x ->
                    ~ In (journey_of_session c x)
                         (journey_data c (user_sessions sessions c)))
    /\ build_journeys to_datetime strftime db start_date end_date
       = flat_map (contribution to_datetime strftime db) convs
    /\ (forall c, user_sessions sessions c = [] ->
                  contribution to_datetime strftime db c = []).
Proof.
  intros td sf db s e convs sessions.
  assert (Hsel : forall c x, In x (user_sessions sessions c) <->
                    In x sessions /\ sr_user_id x = cr_user_id c /\
                    sr_timestamp x <= cr_timestamp c).
  { intros c x. rewrite user_sessions_selected, filter_In. unfold selected.
    rewrite andb_true_iff, String.eqb_eq, Z.leb_le. tauto. }
  split; [|split; [exact Hsel|split; [|split]]].
  - rewrite build_journeys_contributions. apply Forall_forall. intros r Hr.
    apply in_flat_map in Hr. destruct Hr as [c [Hc Hr]].
    unfold contribution, journey_data in Hr. rewrite map_map in Hr.
    apply in_map_iff in Hr. destruct Hr as [x [<- Hx]].
    apply Hsel in Hx. exists c, x. tauto.
  - intros c x Hlt Hin. unfold journey_data in Hin.
    apply in_map_iff in Hin. destruct Hin as [y [Heq Hy]].
    apply Hsel in Hy. destruct Hy as [_ [_ Hle]].
    apply (f_equal jr_timestamp) in Heq. simpl in Heq. lia.
  - apply build_journeys_contributions.
  - intros c Hempty. unfold contribution. fold sessions. now rewrite Hempty.
Qed.

(** Every row of the frame that [build_journeys] returns has
    its [conversion] column equal to 0, also a row whose session happened at
    the very instant of the conversion. *)
Lemma build_journeys_conversion_flag to_datetime strftime db s e r :
  In r (build_journeys to_datetime strftime db s e) -> jr_conversion r = 0.
Proof.
  rewrite build_journeys_contributions. intros Hr.
  apply in_flat_map in Hr. destruct Hr as [c [_ Hr]].
  unfold contribution, journey_data in Hr. rewrite map_map in Hr.
  apply in_map_iff in Hr. destruct Hr as [x [<- _]]. reflexivity.
Qed.

(** C3, the stored order decides. With the three sessions of scenario A
    stored as S2, S1, S3 the journey of C1 comes out as S2, S1: it is not in
    time order, so the claim as worded fails. *)
Lemma journeys_not_sorted_for_shuffled_sessions :
  build_journeys example_to_datetime example_strftime scenario_a_shuffled None None
  = [ format_row example_strftime
        {| jr_conversion_id := "C1"; jr_session_id := "S2";
           jr_timestamp := 20240102100000; jr_channel_label := "Email";
           jr_holder_engagement := 1; jr_closer_engagement := 0;
           jr_conversion := 0; jr_impression_interaction := 0 |};
      format_row example_strftime
        {| jr_conversion_id := "C1"; jr_session_id := "S1";
           jr_timestamp := 20240101090000; jr_channel_label := "Email";
           jr_holder_engagement := 1; jr_closer_engagement := 0;
           jr_conversion := 0; jr_impression_interaction := 0 |} ]
  /\ ~ journeys_in_time_order example_to_datetime scenario_a_shuffled None None.
Proof.
  split; [reflexivity|].
  intros H.
  specialize (H {| cr_conv_id := "C1"; cr_user_id := "U1";
                   cr_timestamp := 20240102100000 |}).
  assert (Hin : In {| cr_conv_id := "C1"; cr_user_id := "U1";
                      cr_timestamp := 20240102100000 |}
                   (read_conversions example_to_datetime scenario_a_shuffled None None))
    by (left; reflexivity).
  specialize (H Hin). clear Hin.
  assert (Hne : user_sessions (read_session_sources example_to_datetime scenario_a_shuffled)
                  {| cr_conv_id := "C1"; cr_user_id := "U1";
                     cr_timestamp := 20240102100000 |} <> [])
    by (vm_compute; discriminate).
  specialize (H Hne). clear Hne.
  vm_compute in H.
  inversion H as [|a l _ Hall]; subst.
  inversion Hall as [|b l' Hle _]; subst.
  apply Hle. reflexivity.
Qed.

(** C3, amended. The frame that [build_journeys] returns is, conversion after
    conversion, the rendering of the sessions selected for the conversion in
    the order in which the session records were read (a stable filter, no
    sort); with distinct conversion ids these are the rows the frame holds
    under the conversion's id.  A journey is in ascending time order whenever
    the session records are.  When a user's sessions at t1 < t2 < t3 are read
    in that order and the conversion is at t2, the selection is exactly the
    first two, in that order. *)
Theorem build_journeys_keeps_stored_order :
  forall (to_datetime : string -> Z) (strftime : Z -> string)
         (db : database) (start_date end_date : option string),
    let convs := read_conversions to_datetime db start_date end_date in
    let sessions := read_session_sources to_datetime db in
    let journeys_df := build_journeys to_datetime strftime db start_date end_date in
    journeys_df = flat_map (contribution to_datetime strftime db) convs
    /\ (forall c,
           contribution to_datetime strftime db c
           = map (fun x => format_row strftime (journey_of_session c x))
                 (filter (selected c) sessions))
    /\ (forall c,
           In c convs -> NoDup (map cr_conv_id convs) ->
           journey_of (cr_conv_id c) journeys_df
           = contribution to_datetime strftime db c
           /\ journey_of (cr_conv_id c)
                         (customer_journeys_df to_datetime db start_date end_date)
              = map (journey_of_session c) (filter (selected c) sessions))
    /\ (StronglySorted by_session_time sessions ->
        forall c,
          StronglySorted by_occurred_at
            (map (journey_of_session c) (filter (selected c) sessions)))
    /\ (forall c s1 s2 s3,
           sr_user_id s1 = cr_user_id c -> sr_user_id s2 = cr_user_id c ->
           sr_user_id s3 = cr_user_id c ->
           sr_timestamp s1 < sr_timestamp s2 -> sr_timestamp s2 < sr_timestamp s3 ->
           cr_timestamp c = sr_timestamp s2 ->
           user_sessions [s1; s2; s3] c = [s1; s2]).
Proof.
  intros td sf db s e convs sessions journeys_df.
  assert (Hcontrib : forall c,
             contribution td sf db c
             = map (fun x => format_row sf (journey_of_session c x))
                   (filter (selected c) sessions)).
  { intros c. unfold contribution, journey_data.
    now rewrite user_sessions_selected, map_map. }
  split; [apply build_journeys_contributions|].
  split; [exact Hcontrib|]. split; [|split].
  - intros c Hin Hnd.
    assert (Hdt : journey_of (cr_conv_id c) (customer_journeys_df td db s e)
                  = map (journey_of_session c) (filter (selected c) sessions)).
    { unfold customer_journeys_df. rewrite concat_all_journeys.
      rewrite (journey_of_flat_map
                 (fun c' => journey_data c' (user_sessions (read_session_sources td db) c')));
        auto.
      - unfold journey_data. now rewrite user_sessions_selected.
      - intros c' r Hr. unfold journey_data in Hr.
        apply in_map_iff in Hr. destruct Hr as [x [<- _]]. reflexivity. }
    split; [|exact Hdt].
    unfold journeys_df.
    rewrite build_journeys_formats, journey_of_format, Hdt, map_map.
    symmetry. apply Hcontrib.
  - intros Hsorted c.
    apply (StronglySorted_map by_session_time); [intros a b H; exact H|].
    now apply StronglySorted_filter.
  - intros c s1 s2 s3 H1 H2 H3 H12 H23 Hc.
    rewrite user_sessions_selected. unfold selected. simpl.
    rewrite H1, H2, H3, String.eqb_refl. simpl.
    replace (sr_timestamp s1 <=? cr_timestamp c) with true
      by (symmetry; apply Z.leb_le; lia).
    replace (sr_timestamp s2 <=? cr_timestamp c) with true
      by (symmetry; apply Z.leb_le; lia).
    replace (sr_timestamp s3 <=? cr_timestamp c) with false
      by (symmetry; apply Z.leb_gt; lia).
    reflexivity.
Qed.

(** Scenario A, with the sessions stored in time order: the journey of C1
    is S1, S2. *)
Lemma build_journeys_keeps_stored_order_scenario_a :
  journey_of "C1"
    (build_journeys example_to_datetime example_strftime scenario_a None None)
  = contribution example_to_datetime example_strftime scenario_a
      {| cr_conv_id := "C1"; cr_user_id := "U1"; cr_timestamp := 20240102100000 |}
  /\ map jr_session_id
         (journey_of "C1"
            (build_journeys example_to_datetime example_strftime scenario_a None None))
     = ["S1"; "S2"].
Proof.
  split; [|reflexivity].
  refine (proj1 (proj1 (proj2 (proj2
            (build_journeys_keeps_stored_order
               example_to_datetime example_strftime scenario_a None None)))
            {| cr_conv_id := "C1"; cr_user_id := "U1";
               cr_timestamp := 20240102100000 |} _ _)).
  - left. reflexivity.
  - vm_compute. constructor; [intros []|constructor].
Defined.

(* ------------------------------------------------------------------ *)
(** ** Traces of monadic code *)
(* ------------------------------------------------------------------ *)

Lemma project_app {X} (p : event -> option X) (l1 l2 : list event) :
  project p (l1 ++ l2) = project p l1 ++ project p l2.
Proof.
  induction l1 as [|e l1 IH]; simpl; [reflexivity|].
  destruct (p e); simpl; now rewrite IH.
Qed.

Lemma prefix_of_refl {X} (l : list X) : prefix_of l l.
Proof. exists []. now rewrite app_nil_r. Qed.

Lemma prefix_of_nil {X} (l : list X) : prefix_of [] l.
Proof. now exists l. Qed.

Lemma prefix_of_In {X} (pre l : list X) x : prefix_of pre l -> In x pre -> In x l.
Proof. intros [suf ->] H. apply in_or_app. now left. Qed.

Section Tracks.

Context {X : Type} (p : event -> option X).

Lemma tracks_ret {A} (a : A) : tracks p (ret a) [].
Proof.
  intros w. exists []. simpl. rewrite app_nil_r.
  repeat split; auto using prefix_of_nil.
Qed.

Lemma tracks_lift {A} (r : result A) : tracks p (lift r) [].
Proof.
  intros w. exists []. simpl. rewrite app_nil_r.
  repeat split; auto using prefix_of_nil.
Qed.

Lemma tracks_get_table : tracks p get_table [].
Proof.
  intros w. exists []. simpl. rewrite app_nil_r.
  repeat split; auto using prefix_of_nil.
Qed.

Lemma tracks_get_store : tracks p get_store [].
Proof.
  intros w. exists []. simpl. rewrite app_nil_r.
  repeat split; auto using prefix_of_nil.
Qed.

Lemma tracks_set_table t : tracks p (set_table t) [].
Proof.
  intros w. exists []. simpl. rewrite app_nil_r.
  repeat split; auto using prefix_of_nil.
Qed.

Lemma tracks_emit e :
  tracks p (emit e) (opt_list (p e)).
Proof.
  intros w. exists (opt_list (p e)).
  simpl. rewrite project_app. simpl.
  destruct (p e); repeat split; auto using prefix_of_refl.
Qed.

Lemma tracks_bind {A B} (c : M A) (f : A -> M B) xs ys :
  tracks p c xs -> (forall a, tracks p (f a) ys) ->
  tracks p (bind c f) (xs ++ ys).
Proof.
  intros Hc Hf w. unfold bind.
  destruct (Hc w) as [pre [Hout [[suf Hsuf] Hok]]].
  destruct (c w) as [w1 [a|e]] eqn:E; simpl in *.
  - rewrite (Hok a eq_refl) in Hout.
    destruct (Hf a w1) as [pre2 [Hout2 [[suf2 Hsuf2] Hok2]]].
    exists (xs ++ pre2). rewrite Hout2, Hout, app_assoc.
    split; [reflexivity|]. split.
    + exists suf2. rewrite Hsuf2 at 1. now rewrite app_assoc.
    + intros b Hb. now rewrite (Hok2 b Hb).
  - exists pre. split; [exact Hout|]. split.
    + exists (suf ++ ys). rewrite Hsuf. now rewrite app_assoc.
    + intros b Hb. discriminate.
Qed.

Lemma tracks_for_each {Y S} (body : Y -> S -> M S) (f : Y -> list X) ys :
  (forall y s, tracks p (body y s) (f y)) ->
  forall s, tracks p (for_each ys body s) (flat_map f ys).
Proof.
  intros Hbody. induction ys as [|y ys IH]; intros s; simpl.
  - apply tracks_ret.
  - apply tracks_bind; auto.
Qed.

Lemma tracks_eq {A} (c : M A) xs ys : xs = ys -> tracks p c xs -> tracks p c ys.
Proof. now intros <-. Qed.

Lemma tracks_bind_lift {A B} (r : result A) (f : A -> M B) ys :
  (forall a, r = Ok a -> tracks p (f a) ys) -> tracks p (bind (lift r) f) ys.
Proof.
  intros Hf w. unfold bind, lift. destruct r as [a|e].
  - apply (Hf a eq_refl).
  - exists []. simpl. rewrite app_nil_r.
    repeat split; auto using prefix_of_nil. intros; discriminate.
Qed.

Lemma tracks_bind_l {A B} (c : M A) (f : A -> M B) ys :
  tracks p c [] -> (forall a, tracks p (f a) ys) -> tracks p (bind c f) ys.
Proof. intros Hc Hf. apply (tracks_bind c f [] ys); assumption. Qed.

Lemma tracks_bind_r {A B} (c : M A) (f : A -> M B) xs :
  tracks p c xs -> (forall a, tracks p (f a) []) -> tracks p (bind c f) xs.
Proof.
  intros Hc Hf. apply (tracks_eq _ (xs ++ [])); [apply app_nil_r|].
  apply tracks_bind; assumption.
Qed.

End Tracks.

(* ------------------------------------------------------------------ *)
(** ** The trace of the submission loop *)
(* ------------------------------------------------------------------ *)

Section LoopTrace.

Context {X : Type} (p : event -> option X).
Hypothesis p_quiet : forall e, quiet_event e = true -> p e = None.

Variable config : PipelineConfig.
Variable api : journeys_frame -> http_outcome.

Lemma tracks_quiet e : quiet_event e = true -> tracks p (emit e) [].
Proof.
  intros H. apply (tracks_eq p _ (opt_list (p e))).
  - now rewrite (p_quiet e H).
  - apply tracks_emit.
Qed.

Lemma tracks_send journey_data :
  tracks p (send_journeys_to_api api journey_data) (reading p (Submit journey_data)).
Proof.
  unfold send_journeys_to_api. apply tracks_bind_r; [apply tracks_emit|].
  intros _. destruct (api journey_data) as [|status_code body].
  - apply tracks_bind_l; [now apply tracks_quiet|]. intros; apply tracks_ret.
  - destruct (negb (status_code =? 200)).
    + apply tracks_bind_l; [now apply tracks_quiet|]. intros; apply tracks_ret.
    + destruct body as [[|code errs value]|].
      * apply tracks_bind_l; [now apply tracks_quiet|]. intros; apply tracks_ret.
      * apply tracks_bind_l; [now apply tracks_quiet|]. intros _.
        apply tracks_bind_l; [|intros; apply tracks_ret].
        destruct errs; [apply tracks_ret|now apply tracks_quiet].
      * apply tracks_bind_l; [now apply tracks_quiet|]. intros; apply tracks_ret.
Qed.

Lemma tracks_write ihc_results : tracks p (write_ihc_to_db ihc_results) [].
Proof.
  unfold write_ihc_to_db. destruct ihc_results; [apply tracks_ret|].
  apply tracks_bind_l; [apply tracks_lift|]. intros rows.
  apply tracks_bind_l; [now apply tracks_quiet|]. intros _.
  apply tracks_bind_l; [apply tracks_set_table|]. intros _.
  apply tracks_bind_l; [apply tracks_get_table|]. intros t.
  apply tracks_bind_l; [apply tracks_set_table|]. intros _.
  apply tracks_ret.
Qed.

Lemma tracks_send_validate_write journey_data n totals :
  tracks p (send_validate_write api journey_data n totals)
         (reading p (Submit journey_data)).
Proof.
  unfold send_validate_write. apply tracks_bind_r; [apply tracks_send|].
  intros results. apply tracks_bind_l.
  - destruct (list_truthy results); [|apply tracks_ret].
    apply tracks_bind_l; [apply tracks_lift|]. intros validated.
    apply tracks_bind_l; [apply tracks_write|]. intros records.
    apply tracks_bind_l; [now apply tracks_quiet|]. intros _. apply tracks_ret.
  - intros totals'. apply tracks_bind_l; [now apply tracks_quiet|].
    intros _. apply tracks_ret.
Qed.

Lemma tracks_process_single journeys_df conv_id totals :
  tracks p (process_single config api journeys_df conv_id totals)
         (reading p (single_decision config journeys_df conv_id)).
Proof.
  unfold process_single, single_decision.
  destruct (len (rows_eq journeys_df conv_id) >? max_sessions_per_request config).
  - apply tracks_bind_r; [apply tracks_emit|]. intros _. apply tracks_ret.
  - apply tracks_bind_l; [now apply tracks_quiet|]. intros _.
    apply tracks_send_validate_write.
Qed.

Lemma tracks_process_chunk journeys_df unique_conversions i totals :
  tracks p (process_chunk config api journeys_df unique_conversions i totals)
         (flat_map (reading p) (chunk_decisions config journeys_df unique_conversions i)).
Proof.
  unfold process_chunk, chunk_decisions.
  destruct (len (rows_isin journeys_df _) >? max_sessions_per_request config).
  - apply tracks_bind_l; [now apply tracks_quiet|]. intros _.
    rewrite flat_map_concat_map, map_map, <- flat_map_concat_map.
    apply tracks_for_each. intros. apply tracks_process_single.
  - simpl. rewrite app_nil_r.
    apply tracks_bind_l; [now apply tracks_quiet|]. intros _.
    apply tracks_send_validate_write.
Qed.

Lemma tracks_verify : tracks p verify_ihc_data [].
Proof.
  unfold verify_ihc_data. apply tracks_bind_l; [apply tracks_get_table|].
  intros t. now apply tracks_quiet.
Qed.

Lemma tracks_process_journeys journeys_df :
  tracks p (process_journeys config api journeys_df)
         (flat_map (reading p) (batch_plan config journeys_df)).
Proof.
  unfold process_journeys, batch_plan. destruct journeys_df as [|r df].
  - simpl. apply tracks_bind_l; [now apply tracks_quiet|]. intros; apply tracks_ret.
  - set (u := unique (map jr_conversion_id (r :: df))).
    apply tracks_bind_l; [now apply tracks_quiet|]. intros _.
    apply tracks_bind_l; [now apply tracks_quiet|]. intros _.
    apply tracks_bind_lift. intros starts ->.
    apply tracks_bind_r.
    + rewrite flat_map_flat_map.
      apply tracks_for_each. intros. apply tracks_process_chunk.
    + intros totals. apply tracks_bind_l; [now apply tracks_quiet|]. intros _.
      apply tracks_bind_l; [apply tracks_verify|]. intros _. apply tracks_ret.
Qed.

End LoopTrace.

(* ------------------------------------------------------------------ *)
(** ** [unique], [range] and slices *)
(* ------------------------------------------------------------------ *)

Lemma existsb_eqb_In (x : string) (l : list string) :
  existsb (String.eqb x) l = true <-> In x l.
Proof.
  rewrite existsb_exists. split.
  - intros [y [Hy Heq]]. apply String.eqb_eq in Heq. now subst.
  - intros H. exists x. split; [exact H|apply String.eqb_refl].
Qed.

Lemma unique_from_In seen l x :
  In x (unique_from seen l) <-> In x l /\ ~ In x seen.
Proof.
  revert seen. induction l as [|a l IH]; intros seen; simpl; [tauto|].
  destruct (existsb (String.eqb a) seen) eqn:E.
  - apply existsb_eqb_In in E. rewrite IH. split; [tauto|].
    intros [[->|H] Hn]; tauto.
  - assert (Ha : ~ In a seen).
    { intros H. apply existsb_eqb_In in H. congruence. }
    simpl. rewrite IH. simpl. split.
    + intros [->|[H Hn]]; tauto.
    + intros [[->|H] Hn]; [now left|].
      destruct (string_dec a x) as [->|Hne]; [now left|right; tauto].
Qed.

Lemma unique_from_NoDup seen l : NoDup (unique_from seen l).
Proof.
  revert seen. induction l as [|a l IH]; intros seen; simpl; [constructor|].
  destruct (existsb (String.eqb a) seen); [apply IH|].
  constructor; [|apply IH].
  rewrite unique_from_In. simpl. tauto.
Qed.

Lemma unique_In l x : In x (unique l) <-> In x l.
Proof. unfold unique. rewrite unique_from_In. simpl. tauto. Qed.

Lemma unique_NoDup l : NoDup (unique l).
Proof. apply unique_from_NoDup. Qed.

Lemma chunks_concat {A} (m : nat) (n : nat) (u : list A) :
  (List.length u <= n * m)%nat ->
  List.concat (map (fun k => firstn m (skipn (k * m) u)) (seq 0 n)) = u.
Proof.
  revert u. induction n as [|n IH]; intros u Hlen.
  - destruct u; [reflexivity|simpl in Hlen; lia].
  - simpl seq. rewrite <- seq_shift, map_cons, map_map. simpl List.concat.
    simpl skipn at 1.
    transitivity (firstn m u ++ skipn m u); [|apply firstn_skipn].
    f_equal.
    etransitivity; [|apply (IH (skipn m u)); rewrite length_skipn; lia].
    f_equal. apply map_ext. intros k.
    rewrite skipn_skipn. f_equal. f_equal. lia.
Qed.

Lemma range_length_covers (total m : Z) :
  0 < m -> 0 <= total -> total <= range_length 0 total m * m.
Proof.
  intros Hm Ht. unfold range_length.
  replace (0 <? m) with true by (symmetry; now apply Z.ltb_lt).
  destruct (0 <? total) eqn:E.
  - apply Z.ltb_lt in E. rewrite Z.sub_0_r.
    pose proof (Z.mul_succ_div_gt (total - 1) m Hm). lia.
  - apply Z.ltb_ge in E. lia.
Qed.

Lemma range_length_nonneg (total m : Z) :
  0 < m -> 0 <= total -> 0 <= range_length 0 total m.
Proof.
  intros Hm Ht. unfold range_length.
  replace (0 <? m) with true by (symmetry; now apply Z.ltb_lt).
  destruct (0 <? total) eqn:E; [|lia].
  apply Z.ltb_lt in E. rewrite Z.sub_0_r.
  pose proof (Z.div_pos (total - 1) m). lia.
Qed.

(** The chunks that the outer loop cuts are, one after the other, the whole
    list. *)
Lemma py_range_chunks {A} (u : list A) (m : Z) :
  0 < m ->
  exists starts,
    py_range 0 (len u) m = Ok starts
    /\ List.concat (map (fun i => slice u i (i + m)) starts) = u
    /\ Forall (fun i => (List.length (slice u i (i + m)) <= Z.to_nat m)%nat) starts.
Proof.
  intros Hm. unfold py_range.
  replace (m =? 0) with false by (symmetry; apply Z.eqb_neq; lia).
  eexists. split; [reflexivity|].
  assert (Hlen : 0 <= len u) by (unfold len; lia).
  split.
  - rewrite map_map.
    rewrite <- (chunks_concat (Z.to_nat m) (Z.to_nat (range_length 0 (len u) m)) u) at 2.
    + f_equal. apply map_ext. intros k. unfold slice.
      replace (0 + Z.of_nat k * m + m - (0 + Z.of_nat k * m)) with m by lia.
      f_equal. f_equal. rewrite Z.add_0_l, Z2Nat.inj_mul, Nat2Z.id; lia.
    + pose proof (range_length_covers (len u) m Hm Hlen).
      pose proof (range_length_nonneg (len u) m Hm Hlen).
      unfold len in *. nia.
  - apply Forall_forall. intros i _. unfold slice.
    replace (i + m - i) with m by lia. apply firstn_le_length.
Qed.

(* ------------------------------------------------------------------ *)
(** ** The plan of a run *)
(* ------------------------------------------------------------------ *)

Section PlanFacts.

Variable config : PipelineConfig.
Variable journeys_df : journeys_frame.

Let mj := max_journeys_per_request config.
Let ms := max_sessions_per_request config.

Lemma rows_isin_conversion_id ch r :
  In r (rows_isin journeys_df ch) <-> In r journeys_df /\ In (jr_conversion_id r) ch.
Proof. unfold rows_isin. now rewrite filter_In, existsb_eqb_In. Qed.

Lemma rows_eq_conversion_id c r :
  In r (rows_eq journeys_df c) <-> In r journeys_df /\ jr_conversion_id r = c.
Proof. unfold rows_eq. now rewrite filter_In, String.eqb_eq. Qed.

Lemma journey_of_rows_isin c ch :
  In c ch -> journey_of c (rows_isin journeys_df ch) = journey_of c journeys_df.
Proof.
  intros Hc. unfold journey_of, rows_isin. rewrite filter_twice.
  apply filter_ext. intros r.
  destruct (String.eqb (jr_conversion_id r) c) eqn:E.
  - apply String.eqb_eq in E. subst c.
    rewrite andb_true_r. now apply existsb_eqb_In.
  - apply andb_false_r.
Qed.

Lemma journey_of_rows_eq c :
  journey_of c (rows_eq journeys_df c) = journey_of c journeys_df.
Proof.
  unfold journey_of, rows_eq. rewrite filter_twice.
  apply filter_ext. intros r. apply andb_diag.
Qed.

Lemma chunk_plan_limits ch jd :
  0 < mj -> NoDup ch -> (List.length ch <= Z.to_nat mj)%nat ->
  In (Submit jd) (chunk_plan config journeys_df ch) ->
  n_journeys jd <= mj /\ n_touchpoints jd <= ms.
Proof.
  intros Hmj Hnd Hlen. unfold chunk_plan. fold ms.
  destruct (len (rows_isin journeys_df ch) >? ms) eqn:E.
  - intros Hin. apply in_map_iff in Hin. destruct Hin as [x [Hd Hx]].
    unfold single_decision in Hd. fold ms in Hd.
    destruct (len (rows_eq journeys_df x) >? ms) eqn:E1; [discriminate|].
    injection Hd as <-. split.
    + unfold n_journeys, len.
      assert (H : (List.length (unique (map jr_conversion_id (rows_eq journeys_df x)))
                   <= List.length [x])%nat).
      { apply NoDup_incl_length; [apply unique_NoDup|].
        intros y Hy. apply (proj1 (unique_In _ _)) in Hy. apply in_map_iff in Hy.
        destruct Hy as [r [<- Hr]]. apply rows_eq_conversion_id in Hr.
        left. symmetry. tauto. }
      simpl in H. lia.
    + unfold n_touchpoints. rewrite Z.gtb_ltb in E1. apply Z.ltb_ge in E1. exact E1.
  - intros [Hd|[]]. injection Hd as <-. split.
    + unfold n_journeys, len.
      assert (H : (List.length (unique (map jr_conversion_id (rows_isin journeys_df ch)))
                   <= List.length ch)%nat).
      { apply NoDup_incl_length; [apply unique_NoDup|].
        intros y Hy. apply (proj1 (unique_In _ _)) in Hy. apply in_map_iff in Hy.
        destruct Hy as [r [<- Hr]]. apply rows_isin_conversion_id in Hr. tauto. }
      lia.
    + unfold n_touchpoints. rewrite Z.gtb_ltb in E. apply Z.ltb_ge in E. exact E.
Qed.

Lemma covers_single c x :
  In x (map jr_conversion_id journeys_df) ->
  covers c (single_decision config journeys_df x) = String.eqb x c.
Proof.
  intros Hx. unfold single_decision.
  destruct (len (rows_eq journeys_df x) >? _); simpl; [reflexivity|].
  destruct (String.eqb x c) eqn:E.
  - apply String.eqb_eq in E. subst c.
    apply in_map_iff in Hx. destruct Hx as [r [Hr Hin]].
    apply existsb_exists. exists r. split.
    + apply rows_eq_conversion_id. tauto.
    + rewrite Hr. apply String.eqb_refl.
  - apply String.eqb_neq in E.
    destruct (existsb _ _) eqn:E2; [|reflexivity].
    apply existsb_exists in E2. destruct E2 as [r [Hr Heq]].
    apply rows_eq_conversion_id in Hr. apply String.eqb_eq in Heq.
    destruct Hr as [_ Hr]. congruence.
Qed.

Lemma single_decision_sound c :
  decision_sound config journeys_df c (single_decision config journeys_df c).
Proof.
  unfold single_decision.
  destruct (len (rows_eq journeys_df c) >? _) eqn:E; simpl.
  - split; [reflexivity|]. rewrite Z.gtb_ltb in E. apply Z.ltb_lt in E.
    unfold rows_eq, journey_of in *. lia.
  - apply journey_of_rows_eq.
Qed.

Lemma filter_eqb_NoDup (c : string) (l : list string) :
  NoDup l ->
  filter (fun x => String.eqb x c) l = if in_dec string_dec c l then [c] else [].
Proof.
  induction 1 as [|a l Hnotin Hnd IH]; simpl; [reflexivity|].
  destruct (String.eqb a c) eqn:E.
  - apply String.eqb_eq in E. subst a.
    destruct (string_dec c c) as [_|]; [|congruence].
    rewrite IH. destruct (in_dec string_dec c l); [contradiction|reflexivity].
  - apply String.eqb_neq in E. rewrite IH.
    destruct (string_dec a c); [contradiction|].
    destruct (in_dec string_dec c l); reflexivity.
Qed.

Lemma chunk_plan_covers ch c :
  NoDup ch -> incl ch (map jr_conversion_id journeys_df) ->
  (In c ch ->
   exists d, filter (covers c) (chunk_plan config journeys_df ch) = [d]
             /\ decision_sound config journeys_df c d)
  /\ (~ In c ch -> filter (covers c) (chunk_plan config journeys_df ch) = []).
Proof.
  intros Hnd Hincl. unfold chunk_plan.
  destruct (len (rows_isin journeys_df ch) >? _) eqn:E.
  - assert (Hf : filter (covers c) (map (single_decision config journeys_df) ch)
                 = map (single_decision config journeys_df)
                       (filter (fun x => String.eqb x c) ch)).
    { clear Hnd E. induction ch as [|x ch IH]; simpl; [reflexivity|].
      rewrite covers_single by (apply Hincl; now left).
      rewrite IH by (intros y Hy; apply Hincl; now right).
      destruct (String.eqb x c); reflexivity. }
    rewrite Hf, filter_eqb_NoDup by exact Hnd.
    destruct (in_dec string_dec c ch) as [Hin|Hnin]; split; intros H;
      try contradiction; try reflexivity.
    exists (single_decision config journeys_df c). split; [reflexivity|].
    apply single_decision_sound.
  - simpl. destruct (existsb _ (rows_isin journeys_df ch)) eqn:E2.
    + apply existsb_exists in E2. destruct E2 as [r [Hr Heq]].
      apply rows_isin_conversion_id in Hr. apply String.eqb_eq in Heq.
      destruct Hr as [_ Hr]. rewrite Heq in Hr. split; [|contradiction].
      intros _. eexists. split; [reflexivity|]. simpl.
      now apply journey_of_rows_isin.
    + split; [|reflexivity]. intros Hin. exfalso.
      assert (Hc : In c (map jr_conversion_id journeys_df)) by now apply Hincl.
      apply in_map_iff in Hc. destruct Hc as [r [Hr Hrin]].
      assert (Hex : existsb (fun r0 => String.eqb (jr_conversion_id r0) c)
                      (rows_isin journeys_df ch) = true).
      { apply existsb_exists. exists r. split.
        - apply rows_isin_conversion_id. rewrite Hr. tauto.
        - rewrite Hr. apply String.eqb_refl. }
      congruence.
Qed.

Lemma chunks_cover_once chunks c :
  NoDup (List.concat chunks) ->
  incl (List.concat chunks) (map jr_conversion_id journeys_df) ->
  In c (List.concat chunks) ->
  exists d,
    filter (covers c) (flat_map (chunk_plan config journeys_df) chunks) = [d]
    /\ decision_sound config journeys_df c d.
Proof.
  induction chunks as [|ch chunks IH]; simpl; intros Hnd Hincl Hin; [destruct Hin|].
  assert (Hnd1 : NoDup ch) by (eapply NoDup_app_remove_r; eauto).
  assert (Hnd2 : NoDup (List.concat chunks)) by (eapply NoDup_app_remove_l; eauto).
  assert (Hi1 : incl ch (map jr_conversion_id journeys_df))
    by (intros x Hx; apply Hincl, in_or_app; now left).
  assert (Hi2 : incl (List.concat chunks) (map jr_conversion_id journeys_df))
    by (intros x Hx; apply Hincl, in_or_app; now right).
  destruct (chunk_plan_covers ch c Hnd1 Hi1) as [Hyes Hno].
  rewrite filter_app.
  destruct (in_dec string_dec c ch) as [Hc|Hc].
  - destruct (Hyes Hc) as [d [Hd Hs]]. exists d. split; [|exact Hs].
    rewrite Hd. simpl. f_equal.
    apply filter_all_false. intros d' Hd'.
    apply in_flat_map in Hd'. destruct Hd' as [ch' [Hch' Hd']].
    destruct (covers c d') eqn:E; [|reflexivity]. exfalso.
    assert (Hnd' : NoDup ch') by (eapply NoDup_concat_In; eauto).
    assert (Hsub : incl ch' (List.concat chunks)).
    { intros x Hx. apply in_concat. eauto. }
    assert (Hi' : incl ch' (map jr_conversion_id journeys_df))
      by (intros x Hx; auto).
    destruct (chunk_plan_covers ch' c Hnd' Hi') as [_ Hno'].
    destruct (in_dec string_dec c ch') as [Hc'|Hc'].
    + apply (NoDup_app_separate ch (List.concat chunks) c); auto.
    + specialize (Hno' Hc').
      assert (Hf : In d' (filter (covers c) (chunk_plan config journeys_df ch')))
        by (apply filter_In; tauto).
      rewrite Hno' in Hf. destruct Hf.
  - rewrite (Hno Hc). simpl. apply IH; auto.
    apply in_app_or in Hin. tauto.
Qed.

End PlanFacts.

Section RunFacts.

Variable config : PipelineConfig.
Variable api : journeys_frame -> http_outcome.
Variable journeys_df : journeys_frame.

Lemma batch_plan_chunks :
  0 < max_journeys_per_request config ->
  exists chunks,
    batch_plan config journeys_df = flat_map (chunk_plan config journeys_df) chunks
    /\ List.concat chunks = unique (map jr_conversion_id journeys_df)
    /\ Forall (fun ch => (List.length ch
                          <= Z.to_nat (max_journeys_per_request config))%nat) chunks.
Proof.
  intros Hm.
  destruct (py_range_chunks (unique (map jr_conversion_id journeys_df)) _ Hm)
    as [starts [Hr [Hc Hl]]].
  destruct journeys_df as [|r df] eqn:Edf.
  - exists []. repeat split; constructor.
  - exists (map (fun i => slice (unique (map jr_conversion_id (r :: df))) i
                            (i + max_journeys_per_request config)) starts).
    split; [|split].
    + unfold batch_plan. rewrite Hr. clear Hr Hc Hl.
      rewrite flat_map_after_map. apply flat_map_ext. intros i. reflexivity.
    + exact Hc.
    + apply Forall_map. exact Hl.
Qed.

Lemma batch_plan_limits journey_data :
  0 < max_journeys_per_request config ->
  In (Submit journey_data) (batch_plan config journeys_df) ->
  n_journeys journey_data <= max_journeys_per_request config
  /\ n_touchpoints journey_data <= max_sessions_per_request config.
Proof.
  intros Hm Hin. destruct (batch_plan_chunks Hm) as [chunks [Hp [Hc Hl]]].
  rewrite Hp in Hin. apply in_flat_map in Hin. destruct Hin as [ch [Hch Hin]].
  apply (chunk_plan_limits config journeys_df ch); auto.
  - pose proof (unique_NoDup (map jr_conversion_id journeys_df)) as Hnd.
    rewrite <- Hc in Hnd. eapply NoDup_concat_In; eauto.
  - rewrite Forall_forall in Hl. now apply Hl.
Qed.

Lemma batch_plan_covers c :
  0 < max_journeys_per_request config ->
  In c (map jr_conversion_id journeys_df) ->
  exists d,
    filter (covers c) (batch_plan config journeys_df) = [d]
    /\ decision_sound config journeys_df c d.
Proof.
  intros Hm Hin. destruct (batch_plan_chunks Hm) as [chunks [Hp [Hc Hl]]].
  rewrite Hp. apply chunks_cover_once; rewrite Hc.
  - apply unique_NoDup.
  - intros x Hx. now apply unique_In.
  - now apply unique_In.
Qed.

Lemma chunk_decisions_rows u i journey_data :
  In (Submit journey_data) (chunk_decisions config journeys_df u i) ->
  incl journey_data journeys_df.
Proof.
  unfold chunk_decisions. intros Hin.
  destruct (len _ >? _).
  - apply in_map_iff in Hin. destruct Hin as [x [Hd _]].
    unfold single_decision in Hd. destruct (len _ >? _); [discriminate|].
    injection Hd as <-. intros y Hy.
    apply rows_eq_conversion_id in Hy. tauto.
  - destruct Hin as [Hd|[]]. injection Hd as <-.
    intros y Hy. apply rows_isin_conversion_id in Hy. tauto.
Qed.

Lemma batch_plan_rows journey_data :
  In (Submit journey_data) (batch_plan config journeys_df) ->
  incl journey_data journeys_df.
Proof.
  unfold batch_plan. destruct journeys_df as [|r df] eqn:E; [intros []|].
  rewrite <- E. destruct (py_range _ _ _) as [starts|]; [|intros []].
  intros Hin. apply in_flat_map in Hin. destruct Hin as [i [_ Hin]].
  eapply chunk_decisions_rows; eauto.
Qed.

Lemma decision_reading_quiet e : quiet_event e = true -> decision_of_event e = None.
Proof. destruct e; simpl; congruence. Qed.

Lemma banner_reading_quiet e : quiet_event e = true -> banner_of_event e = None.
Proof. destruct e; simpl; congruence. Qed.

Lemma reading_decisions (l : list decision) :
  flat_map (reading decision_of_event) l = l.
Proof.
  induction l as [|d l IH]; simpl; [reflexivity|].
  rewrite IH. destruct d; reflexivity.
Qed.

Lemma reading_banners (l : list decision) :
  flat_map (reading banner_of_event) l = [].
Proof.
  induction l as [|d l IH]; simpl; [reflexivity|].
  rewrite IH. destruct d; reflexivity.
Qed.

Lemma decisions_of_run (db : database) :
  let run := process_journeys config api journeys_df (initial_world db) in
  prefix_of (decisions (out (fst run))) (batch_plan config journeys_df)
  /\ (forall n, snd run = Ok n ->
                decisions (out (fst run)) = batch_plan config journeys_df).
Proof.
  intros run.
  destruct (tracks_process_journeys decision_of_event decision_reading_quiet
              config api journeys_df (initial_world db)) as [pre [Hout [Hpre Hok]]].
  rewrite reading_decisions in *. simpl in Hout. unfold decisions, run. rewrite Hout.
  split; [exact Hpre|]. intros n Hn. now apply (Hok n).
Qed.

Lemma banners_of_run (w : world) :
  banners (out (fst (process_journeys config api journeys_df w))) = banners (out w).
Proof.
  destruct (tracks_process_journeys banner_of_event banner_reading_quiet
              config api journeys_df w) as [pre [Hout [[suf Hpre] _]]].
  rewrite reading_banners in Hpre. symmetry in Hpre. apply app_eq_nil in Hpre.
  destruct Hpre as [-> _]. unfold banners. now rewrite Hout, app_nil_r.
Qed.

End RunFacts.

Lemma project_In {X} (p : event -> option X) (evs : list event) e x :
  In e evs -> p e = Some x -> In x (project p evs).
Proof.
  induction evs as [|a l IH]; simpl; intros Hin Hp; [destruct Hin|].
  destruct Hin as [->|Hin].
  - rewrite Hp. now left.
  - destruct (p a); [right|]; auto.
Qed.

(* ------------------------------------------------------------------ *)
(** ** The submission loop: partitioning *)
(* ------------------------------------------------------------------ *)

(** C4. A run that an exception ends drops journeys without a word. With
    one journey per request and a service that answers the first request
    with the weight 0.0, the normalizer ends the run in ZeroDivisionError
    after that request: the journey of c2 is in no request and is not
    reported as skipped, against the claim. *)
Theorem partition_claim_fails_on_aborted_run :
  snd (process_journeys one_per_request (api_uniform 0) two_journeys
                        (initial_world empty_db))
  = Raise ZeroDivisionError
  /\ decisions (out (fst (process_journeys one_per_request (api_uniform 0) two_journeys
                                           (initial_world empty_db))))
     = [Submit [example_row "c1" "s1"]]
  /\ ~ partition_claim one_per_request (api_uniform 0) two_journeys empty_db.
Proof.
  split; [vm_compute; reflexivity|]. split; [vm_compute; reflexivity|].
  intros [_ H]. destruct (H "c2") as [d [Hd _]].
  - simpl. auto.
  - vm_compute in Hd. discriminate.
Qed.

(** X18. The partition of the frame. For positive limits, every request
    that a run of [process_journeys] sends holds at most [max_journeys_per_request]
    journeys and at most [max_sessions_per_request] rows, and the requests
    and skip reports of the run are an initial part of the run's plan, in
    which every journey of the input is dealt with exactly once: by one
    request that holds the whole journey, or by one skip report for a journey
    that alone is over the session limit.  When the run returns (no exception
    ends it early) the requests and skip reports are the whole plan, so every
    journey is in exactly one request or reported as skipped. *)
Theorem process_journeys_partitions :
  forall (config : PipelineConfig) (api : journeys_frame -> http_outcome)
         (journeys_df : journeys_frame) (db : database),
    0 < max_journeys_per_request config ->
    0 < max_sessions_per_request config ->
    let run := process_journeys config api journeys_df (initial_world db) in
    let ds := decisions (out (fst run)) in
    (forall journey_data,
        In (Submit journey_data) ds ->
        n_journeys journey_data <= max_journeys_per_request config
        /\ n_touchpoints journey_data <= max_sessions_per_request config)
    /\ prefix_of ds (batch_plan config journeys_df)
    /\ (forall c,
           In c (map jr_conversion_id journeys_df) ->
           exists d, filter (covers c) (batch_plan config journeys_df) = [d]
                     /\ decision_sound config journeys_df c d)
    /\ (forall n,
           snd run = Ok n ->
           forall c,
             In c (map jr_conversion_id journeys_df) ->
             exists d, filter (covers c) ds = [d]
                       /\ decision_sound config journeys_df c d).
Proof.
  intros config api journeys_df db Hmj Hms run ds.
  destruct (decisions_of_run config api journeys_df db) as [Hpre Hok].
  fold run in Hpre, Hok. fold ds in Hpre, Hok.
  split; [|split; [exact Hpre|split]].
  - intros jd Hin. apply (batch_plan_limits config journeys_df jd Hmj).
    eapply prefix_of_In; eauto.
  - intros c Hc. now apply batch_plan_covers.
  - intros n Hn c Hc. rewrite (Hok n Hn). now apply batch_plan_covers.
Qed.

(** A run that returns: both journeys are sent, one request each. *)
Lemma process_journeys_partitions_example :
  snd (process_journeys one_per_request (api_uniform 1) two_journeys
                        (initial_world empty_db)) = Ok 2
  /\ exists d,
       filter (covers "c2")
              (decisions (out (fst (process_journeys one_per_request (api_uniform 1)
                                                     two_journeys
                                                     (initial_world empty_db)))))
       = [d]
       /\ decision_sound one_per_request two_journeys "c2" d.
Proof.
  split; [vm_compute; reflexivity|].
  refine (proj2 (proj2 (proj2
            (process_journeys_partitions one_per_request (api_uniform 1)
               two_journeys empty_db _ _))) 2 _ "c2" _).
  - reflexivity.
  - reflexivity.
  - vm_compute. reflexivity.
  - simpl. auto.
Defined.

(* ------------------------------------------------------------------ *)
(** ** The conversion flag *)
(* ------------------------------------------------------------------ *)

(** C10. Every row of the frame that [build_journeys] returns has its
    [conversion] column equal to 0, whatever the timestamps are (also for a
    session at the very instant of the conversion), and so has every row of
    every request body that [process_journeys] posts when it is given that
    frame. *)
Theorem conversion_flag_is_always_zero :
  forall (to_datetime : string -> Z) (strftime : Z -> string)
         (config : PipelineConfig) (api : journeys_frame -> http_outcome)
         (db : database) (start_date end_date : option string),
    let journeys_df := build_journeys to_datetime strftime db start_date end_date in
    Forall (fun r => jr_conversion r = 0) journeys_df
    /\ (forall journey_data,
           In (Post journey_data)
              (out (fst (process_journeys config api journeys_df (initial_world db)))) ->
           Forall (fun r => jr_conversion r = 0) journey_data).
Proof.
  intros td sf config api db s e journeys_df.
  assert (Hall : Forall (fun r => jr_conversion r = 0) journeys_df).
  { apply Forall_forall. intros r Hr.
    eapply build_journeys_conversion_flag; eauto. }
  split; [exact Hall|].
  intros jd Hin.
  apply (project_In decision_of_event _ _ (Submit jd)) in Hin; [|reflexivity].
  destruct (decisions_of_run config api journeys_df db) as [Hpre _].
  apply (prefix_of_In _ _ _ Hpre) in Hin.
  apply (batch_plan_rows config api) in Hin.
  apply Forall_forall. intros r Hr.
  rewrite Forall_forall in Hall. apply Hall, Hin, Hr.
Qed.

(* ------------------------------------------------------------------ *)
(** ** The normalizer *)
(* ------------------------------------------------------------------ *)

(** A double that compares equal to zero is +0.0 or -0.0. *)
Lemma float_eqb_zero (s : float) :
  (s =? 0)%float = true -> s = 0%float \/ s = (-0)%float.
Proof.
  rewrite FloatAxioms.eqb_spec. intros H.
  assert (E : Prim2SF s = S754_zero false \/ Prim2SF s = S754_zero true).
  { revert H. change (Prim2SF 0) with (S754_zero false).
    unfold SFeqb, SFcompare.
    destruct (Prim2SF s) as [[|]|[|]| |[|] m e]; try discriminate; auto. }
  destruct E as [E|E]; [left|right]; apply Prim2SF_inj; rewrite E; reflexivity.
Qed.

(** A sum that compares equal to zero is off 1 by more than the tolerance. *)
Lemma off_by_more_than_tolerance_zero (s : float) :
  (s =? 0)%float = true -> off_by_more_than_tolerance s = true.
Proof. intros H. destruct (float_eqb_zero s H) as [-> | ->]; reflexivity. Qed.

Lemma ihc_sum_from_typed (acc : float) (g : list attribution_row) :
  ihc_sum_from acc (map to_result g) = Ok (fold_left PrimFloat.add (map ar_ihc g) acc).
Proof.
  revert acc. induction g as [|r g IH]; intros acc; simpl; [reflexivity|]. apply IH.
Qed.

Lemma rescale_all_typed (s : float) (g : list attribution_row) :
  (s =? 0)%float = false ->
  rescale_all s (map to_result g) = Ok (map to_result (map (scaled s) g)).
Proof.
  intros Hs. induction g as [|r g IH]; simpl; [reflexivity|].
  unfold rescale. simpl. rewrite Hs. simpl. rewrite IH. reflexivity.
Qed.

Lemma rescale_all_zero (g : list attribution_row) (r : attribution_row) (s : float) :
  (s =? 0)%float = true ->
  rescale_all s (map to_result (r :: g)) = Raise ZeroDivisionError.
Proof. intros Hs. simpl. unfold rescale. simpl. now rewrite Hs. Qed.

Lemma normalize_sessions_typed (g : list attribution_row) :
  (weight_sum g =? 0)%float = false ->
  normalize_sessions (map to_result g) = Ok (map to_result (normalized g)).
Proof.
  intros Hs. unfold normalize_sessions, ihc_sum_of.
  rewrite ihc_sum_from_typed. simpl. fold (weight_sum g). unfold normalized.
  destruct (off_by_more_than_tolerance (weight_sum g)).
  - rewrite rescale_all_typed by exact Hs.
    simpl. now rewrite ihc_sum_from_typed.
  - simpl. now rewrite ihc_sum_from_typed.
Qed.

Lemma dict_append_results d c r :
  dict_append (dict_results d) c (to_result r) = dict_results (dict_append d c r).
Proof.
  induction d as [|[k g] d IH]; simpl; [reflexivity|].
  destruct (String.eqb k c); simpl.
  - now rewrite map_app.
  - now rewrite IH.
Qed.

Lemma group_by_conversion_typed rows d :
  group_by_conversion (map to_result rows) (dict_results d)
  = Ok (dict_results (group_rows rows d)).
Proof.
  revert d. induction rows as [|r rows IH]; intros d; simpl; [reflexivity|].
  rewrite dict_append_results. apply IH.
Qed.

Lemma normalize_groups_typed d acc :
  (forall k g, In (k, g) d -> (weight_sum g =? 0)%float = false) ->
  normalize_groups (dict_results d) (map to_result acc)
  = Ok (map to_result (acc ++ flat_map (fun kv => normalized (snd kv)) d)).
Proof.
  revert acc. induction d as [|[k g] d IH]; intros acc Hnz; simpl.
  - now rewrite app_nil_r.
  - rewrite normalize_sessions_typed by (apply (Hnz k); now left).
    simpl. rewrite <- map_app, IH by (intros k' g' H; apply (Hnz k'); now right).
    now rewrite <- app_assoc.
Qed.

Lemma dict_get_append {R} (d : list (string * list R)) c (r : R) k :
  dict_get (dict_append d c r) k
  = if String.eqb c k
    then Some (match dict_get d c with Some g => g ++ [r] | None => [r] end)
    else dict_get d k.
Proof.
  induction d as [|[k' g] d IH]; simpl.
  - reflexivity.
  - destruct (String.eqb k' c) eqn:E; simpl.
    + apply String.eqb_eq in E. subst k'.
      destruct (String.eqb c k); reflexivity.
    + rewrite IH. destruct (String.eqb c k) eqn:E2; [|reflexivity].
      apply String.eqb_eq in E2. subst k. now rewrite E.
Qed.

Lemma dict_keys_append {R} (d : list (string * list R)) c (r : R) :
  map fst (dict_append d c r)
  = map fst d ++ match dict_get d c with Some _ => [] | None => [c] end.
Proof.
  induction d as [|[k' g] d IH]; simpl; [reflexivity|].
  destruct (String.eqb k' c); simpl.
  - now rewrite app_nil_r.
  - now rewrite IH.
Qed.

Lemma dict_get_None {R} (d : list (string * list R)) k :
  dict_get d k = None -> ~ In k (map fst d).
Proof.
  induction d as [|[k' g] d IH]; simpl; [tauto|].
  destruct (String.eqb k' k) eqn:E; [discriminate|].
  apply String.eqb_neq in E. intros H [Hk|Hk]; [contradiction|]. now apply IH.
Qed.

Lemma dict_get_In {R} (d : list (string * list R)) k g :
  NoDup (map fst d) -> In (k, g) d -> dict_get d k = Some g.
Proof.
  induction d as [|[k' g'] d IH]; simpl; intros Hnd Hin; [destruct Hin|].
  inversion Hnd as [|? ? Hnotin Hnd']; subst.
  destruct Hin as [Heq|Hin].
  - injection Heq as -> ->. now rewrite String.eqb_refl.
  - destruct (String.eqb k' k) eqn:E.
    + apply String.eqb_eq in E. subst k'. exfalso. apply Hnotin.
      apply in_map_iff. exists (k, g). auto.
    + now apply IH.
Qed.

Lemma weights_of_snoc k seen r :
  weights_of k (seen ++ [r])
  = weights_of k seen ++ (if String.eqb (ar_conv_id r) k then [r] else []).
Proof. unfold weights_of. rewrite filter_app. reflexivity. Qed.

Lemma weights_of_unseen k seen :
  existsb (String.eqb k) (map ar_conv_id seen) = false -> weights_of k seen = [].
Proof.
  intros H. apply filter_all_false. intros r Hr.
  destruct (String.eqb (ar_conv_id r) k) eqn:E; [|reflexivity].
  apply String.eqb_eq in E.
  assert (Hex : existsb (String.eqb k) (map ar_conv_id seen) = true).
  { apply existsb_eqb_In. rewrite <- E. now apply in_map. }
  congruence.
Qed.

Lemma grouped_append d seen r :
  grouped d seen -> grouped (dict_append d (ar_conv_id r) r) (seen ++ [r]).
Proof.
  intros [Hnd Hget]. split.
  - rewrite dict_keys_append.
    destruct (dict_get d (ar_conv_id r)) eqn:E; [now rewrite app_nil_r|].
    apply dict_get_None in E.
    apply NoDup_app; [exact Hnd|repeat constructor; intros []|].
    intros x Hx [<-|[]]. contradiction.
  - intros k. rewrite dict_get_append, map_app, existsb_app, weights_of_snoc.
    simpl. rewrite orb_false_r, (String.eqb_sym k (ar_conv_id r)).
    destruct (String.eqb (ar_conv_id r) k) eqn:E.
    + apply String.eqb_eq in E. subst k. rewrite orb_true_r, Hget.
      destruct (existsb _ _) eqn:E2; [reflexivity|].
      now rewrite weights_of_unseen.
    + rewrite orb_false_r, app_nil_r. apply Hget.
Qed.

Lemma grouped_group_rows rows d seen :
  grouped d seen -> grouped (group_rows rows d) (seen ++ rows).
Proof.
  revert d seen. induction rows as [|r rows IH]; intros d seen H; simpl.
  - now rewrite app_nil_r.
  - replace (seen ++ r :: rows) with ((seen ++ [r]) ++ rows)
      by (now rewrite <- app_assoc).
    apply IH. now apply grouped_append.
Qed.

Lemma grouped_nil : grouped [] [].
Proof. split; [constructor|reflexivity]. Qed.

Lemma weights_of_flat_map (d : list (string * list attribution_row)) c
      (F : string * list attribution_row -> list attribution_row) :
  NoDup (map fst d) ->
  (forall k g r, In (k, g) d -> In r (F (k, g)) -> ar_conv_id r = k) ->
  weights_of c (flat_map F d)
  = match dict_get d c with Some g => F (c, g) | None => [] end.
Proof.
  induction d as [|[k g] d IH]; simpl; intros Hnd HF; [reflexivity|].
  inversion Hnd as [|? ? Hnotin Hnd']; subst.
  unfold weights_of in *. rewrite filter_app.
  destruct (String.eqb k c) eqn:E.
  - apply String.eqb_eq in E. subst k.
    rewrite filter_all_true, filter_all_false; [apply app_nil_r| |].
    + intros r Hr. apply in_flat_map in Hr. destruct Hr as [[k' g'] [Hin Hr]].
      apply String.eqb_neq. rewrite (HF k' g' r); auto.
      intros ->. apply Hnotin. apply in_map_iff. exists (c, g'). auto.
    + intros r Hr. apply String.eqb_eq. apply (HF c g); auto.
  - rewrite filter_all_false, IH; auto.
    + intros k' g' r Hin Hr. apply (HF k' g'); auto.
    + intros r Hr. rewrite (HF k g r); auto.
Qed.

Lemma normalized_conv_id g r k :
  (forall x, In x g -> ar_conv_id x = k) -> In r (normalized g) -> ar_conv_id r = k.
Proof.
  intros Hg. unfold normalized. destruct (off_by_more_than_tolerance _); [|apply Hg].
  intros Hr. apply in_map_iff in Hr. destruct Hr as [x [<- Hx]]. simpl. now apply Hg.
Qed.

(** The groups of the dict are the rows of each conversion of the response. *)
Lemma group_rows_groups rows k g :
  In (k, g) (group_rows rows []) ->
  g = weights_of k rows /\ In k (map ar_conv_id rows).
Proof.
  destruct (grouped_group_rows rows [] [] grouped_nil) as [Hnd Hget]. simpl in Hget.
  intros Hin. apply (dict_get_In _ _ _ Hnd) in Hin. rewrite Hget in Hin.
  destruct (existsb _ _) eqn:E; [|discriminate].
  apply existsb_eqb_In in E. injection Hin as <-. auto.
Qed.

(** The normalizer on weight rows none of whose groups sums to 0. *)
Lemma validate_ihc_results_typed (rows : list attribution_row) :
  no_zero_sum rows ->
  validate_ihc_results (map to_result rows)
  = Ok (map to_result (flat_map (fun kv => normalized (snd kv)) (group_rows rows [])))
  /\ forall c, In c (map ar_conv_id rows) ->
       weights_of c (flat_map (fun kv => normalized (snd kv)) (group_rows rows []))
       = normalized (weights_of c rows).
Proof.
  intros Hnz.
  destruct (grouped_group_rows rows [] [] grouped_nil) as [Hnd Hget]. simpl in Hget.
  pose proof (group_rows_groups rows) as Hgroups.
  split.
  - destruct rows as [|r rest]; [reflexivity|].
    change (validate_ihc_results (map to_result (r :: rest)))
      with (rbind (group_by_conversion (map to_result (r :: rest)) (dict_results []))
                  (fun conversions => normalize_groups conversions (map to_result []))).
    rewrite group_by_conversion_typed. cbn [rbind].
    rewrite normalize_groups_typed; [reflexivity|].
    intros k g Hin. destruct (Hgroups k g Hin) as [-> Hk]. now apply Hnz.
  - intros c Hc.
    rewrite weights_of_flat_map; [|exact Hnd|].
    + rewrite Hget.
      replace (existsb (String.eqb c) (map ar_conv_id rows)) with true
        by (symmetry; now apply existsb_eqb_In).
      reflexivity.
    + intros k g r Hin Hr. simpl in Hr.
      apply (normalized_conv_id g r k); [|exact Hr].
      destruct (Hgroups k g Hin) as [-> _]. intros x Hx.
      unfold weights_of in Hx. apply filter_In in Hx.
      now apply String.eqb_eq.
Qed.

Lemma normalize_sessions_zero (g : list attribution_row) :
  g <> [] -> (weight_sum g =? 0)%float = true ->
  normalize_sessions (map to_result g) = Raise ZeroDivisionError.
Proof.
  intros Hne Hs. unfold normalize_sessions, ihc_sum_of.
  rewrite ihc_sum_from_typed. simpl. fold (weight_sum g).
  rewrite (off_by_more_than_tolerance_zero _ Hs).
  destruct g as [|r g]; [contradiction|].
  now rewrite rescale_all_zero.
Qed.

Lemma normalize_groups_zero d acc :
  (forall k g, In (k, g) d -> g <> []) ->
  (exists k g, In (k, g) d /\ (weight_sum g =? 0)%float = true) ->
  normalize_groups (dict_results d) (map to_result acc) = Raise ZeroDivisionError.
Proof.
  revert acc. induction d as [|[k g] d IH]; intros acc Hne [k0 [g0 [Hin Hz]]];
    [destruct Hin|].
  simpl. destruct (weight_sum g =? 0)%float eqn:E.
  - rewrite normalize_sessions_zero; auto. apply (Hne k). now left.
  - rewrite normalize_sessions_typed by exact E. simpl. rewrite <- map_app.
    apply IH.
    + intros k' g' H. apply (Hne k'). now right.
    + destruct Hin as [Heq|Hin].
      * injection Heq as -> ->. congruence.
      * exists k0, g0. auto.
Qed.

(** C2. The normalizer has no guard for a zero sum: when the weights of some
    conversion of the response, added as doubles the way [sum] adds them,
    give a sum that compares equal to zero (as it does when every weight of
    the conversion is 0.0), [validate_ihc_results] reaches the division
    [session['ihc'] / ihc_sum] and ends in ZeroDivisionError, which nothing
    catches; no validated rows are returned, for that conversion or for any
    other of the response. *)
Theorem validate_ihc_results_zero_sum_raises :
  forall (rows : list attribution_row) (c : string),
    In c (map ar_conv_id rows) ->
    (weight_sum (weights_of c rows) =? 0)%float = true ->
    validate_ihc_results (map to_result rows) = Raise ZeroDivisionError.
Proof.
  intros rows c Hc Hz.
  destruct (grouped_group_rows rows [] [] grouped_nil) as [Hnd Hget]. simpl in Hget.
  destruct rows as [|r rest]; [destruct Hc|].
  change (validate_ihc_results (map to_result (r :: rest)))
    with (rbind (group_by_conversion (map to_result (r :: rest)) (dict_results []))
                (fun conversions => normalize_groups conversions (map to_result []))).
  rewrite group_by_conversion_typed. cbn [rbind].
  apply normalize_groups_zero.
  - intros k g Hin ->. destruct (group_rows_groups _ _ _ Hin) as [Hw Hk].
    apply in_map_iff in Hk. destruct Hk as [x [Hx Hxin]].
    assert (Hf : In x (weights_of k (r :: rest))).
    { unfold weights_of. apply filter_In. split; [exact Hxin|].
      now apply String.eqb_eq. }
    rewrite <- Hw in Hf. destruct Hf.
  - exists c, (weights_of c (r :: rest)). split; [|exact Hz].
    specialize (Hget c).
    replace (existsb (String.eqb c) (map ar_conv_id (r :: rest))) with true in Hget
      by (symmetry; now apply existsb_eqb_In).
    clear - Hget. induction (group_rows (r :: rest) []) as [|[k g] d IH];
      simpl in Hget; [discriminate|].
    destruct (String.eqb k c) eqn:E.
    + apply String.eqb_eq in E. subst k. injection Hget as ->. now left.
    + right. now apply IH.
Qed.

(** A response with one row of weight 0.0. *)
Lemma validate_ihc_results_zero_sum_raises_example :
  validate_ihc_results
    (map to_result [ {| ar_conv_id := "C1"; ar_session_id := "S0"; ar_ihc := 0 |} ])
  = Raise ZeroDivisionError.
Proof.
  apply (validate_ihc_results_zero_sum_raises _ "C1").
  - simpl. auto.
  - reflexivity.
Defined.

(** C5. Scenario B alone is rescaled as the claim says: the weights 0.3 and
    0.3 of one conversion come back as 0.5 and 0.5.  When the same response
    holds, before them, a conversion whose weight is 0.0, the call ends in
    ZeroDivisionError and the weights of C2 are not rescaled, although their
    sum 0.6 is not zero: the rule of the claim fails for C2 there. *)
Theorem normalizer_claim_fails_next_to_zero_sum :
  validate_ihc_results (map to_result scenario_b)
  = Ok [full_result "C2" "S1" 0.5; full_result "C2" "S2" 0.5]
  /\ validate_ihc_results (map to_result scenario_b_after_zero) = Raise ZeroDivisionError
  /\ ~ normalizer_claim scenario_b_after_zero.
Proof.
  split; [vm_compute; reflexivity|].
  split; [vm_compute; reflexivity|].
  intros H. destruct (H "C2") as [validated [Hv _]].
  - simpl. auto.
  - vm_compute. reflexivity.
  - vm_compute in Hv. discriminate.
Qed.

(* ------------------------------------------------------------------ *)
(** ** The submission loop: what reaches the table *)
(* ------------------------------------------------------------------ *)

Lemma extract_rows_typed (rows : list attribution_row) :
  extract_rows (map to_result rows) = Ok rows.
Proof.
  induction rows as [|[c s x] rows IH]; simpl; [reflexivity|].
  rewrite IH. reflexivity.
Qed.

(** C1. Every write replaces the table: [write_ihc_to_db] deletes all rows
    and inserts the rows of the batch at hand, so after a write the table
    holds that batch only.  In a run of two requests that both succeed (one
    journey per request, weight 1 for each session) the run returns a count
    of 2 rows written, while the table ends with the row of the second
    request only: the row of the first request is gone. *)
Theorem write_ihc_to_db_replaces_table_per_batch :
  (forall (r : attribution_row) (rows : list attribution_row) (w : world),
      table (fst (write_ihc_to_db (map to_result (r :: rows)) w)) = r :: rows)
  /\ (let run := process_journeys one_per_request (api_uniform 1) two_journeys
                                  (initial_world empty_db) in
      snd run = Ok 2
      /\ decisions (out (fst run))
         = [Submit [example_row "c1" "s1"]; Submit [example_row "c2" "s2"]]
      /\ table (fst run)
         = [ {| ar_conv_id := "c2"; ar_session_id := "s2"; ar_ihc := 1 |} ]
      /\ ~ In {| ar_conv_id := "c1"; ar_session_id := "s1"; ar_ihc := 1 |}
              (table (fst run))).
Proof.
  split.
  - intros r rows w. unfold write_ihc_to_db.
    change (map to_result (r :: rows)) with (to_result r :: map to_result rows).
    cbv iota beta.
    change (to_result r :: map to_result rows) with (map to_result (r :: rows)).
    unfold bind, lift. rewrite extract_rows_typed. reflexivity.
  - cbv zeta. split; [vm_compute; reflexivity|].
    split; [vm_compute; reflexivity|].
    split; [vm_compute; reflexivity|].
    vm_compute. intros [H|[]]. discriminate.
Qed.

(** C7. The answers that the client itself recognises as failures (the
    request raises, a status other than 200, a body that is not JSON or is no
    JSON object) are reported, nothing is written and the loop goes on with
    unchanged totals.  A 200 answer whose [value] rows lack the key 'ihc' is
    not among them: it is handed to the normalizer, which ends in KeyError;
    nothing catches it, the run of [process_journeys] ends there and the
    second journey is never sent. *)
Theorem malformed_rows_abort_the_run :
  (forall (api : journeys_frame -> http_outcome)
          (journey_data : journeys_frame) (n : Z) (totals : Z * Z) (w : world),
      failed_submission (api journey_data) ->
      exists report,
        send_validate_write api journey_data n totals w
        = ({| store := store w; out := out w ++ Post journey_data :: report :: [Sleep] |},
           Ok totals))
  /\ (let run := process_journeys one_per_request api_missing_ihc two_journeys
                                  (initial_world empty_db) in
      snd run = Raise (KeyError "ihc")
      /\ decisions (out (fst run)) = [Submit [example_row "c1" "s1"]]
      /\ table (fst run) = []).
Proof.
  split.
  - intros api jd n totals w Hfail.
    unfold send_validate_write, send_journeys_to_api, bind, emit, ret. simpl.
    destruct (api jd) as [|status_code body]; simpl.
    + eexists. rewrite <- !app_assoc. reflexivity.
    + destruct (status_code =? 200) eqn:E; simpl.
      * apply Z.eqb_eq in E.
        destruct Hfail as [H|[->| ->]]; [contradiction| |]; simpl;
          eexists; rewrite <- !app_assoc; reflexivity.
      * eexists. rewrite <- !app_assoc. reflexivity.
  - cbv zeta. split; [vm_compute; reflexivity|].
    split; vm_compute; reflexivity.
Qed.

(* ------------------------------------------------------------------ *)
(** ** The orchestrator *)
(* ------------------------------------------------------------------ *)

Lemma for_each_invariant {Y S} (P : S -> Prop) (body : Y -> S -> M S) (ys : list Y) :
  (forall y s w w' s', P s -> body y s w = (w', Ok s') -> P s') ->
  forall s w w' s', P s -> for_each ys body s w = (w', Ok s') -> P s'.
Proof.
  intros Hbody. induction ys as [|y ys IH]; intros s w w' s' Hs Hrun; simpl in Hrun.
  - unfold ret in Hrun. now injection Hrun as <- <-.
  - unfold bind in Hrun. destruct (body y s w) as [w1 [s1|e]] eqn:E; [|discriminate].
    eapply IH; [|exact Hrun]. eapply Hbody; eauto.
Qed.

Lemma bind_emit {B} (e : event) (f : unit -> M B) (w : world) :
  bind (emit e) f w = f tt {| store := store w; out := out w ++ [e] |}.
Proof. reflexivity. Qed.

Section Counts.

Variable config : PipelineConfig.
Variable api : journeys_frame -> http_outcome.

Lemma write_ihc_to_db_count ihc_results w w' records :
  write_ihc_to_db ihc_results w = (w', Ok records) -> 0 <= records.
Proof.
  unfold write_ihc_to_db. destruct ihc_results as [|r l].
  - unfold ret. intros H. injection H as <- <-. lia.
  - unfold bind, lift. destruct (extract_rows (r :: l)) as [rows|e]; [|discriminate].
    unfold emit, set_table, get_table, ret. simpl.
    intros H. injection H as <- <-. unfold len. lia.
Qed.

Lemma send_validate_write_count journey_data n totals w w' totals' :
  0 <= snd totals ->
  send_validate_write api journey_data n totals w = (w', Ok totals') ->
  0 <= snd totals'.
Proof.
  intros Hpos. unfold send_validate_write.
  unfold bind at 1. destruct (send_journeys_to_api api journey_data w) as [w1 [results|e]];
    [|discriminate].
  unfold bind at 1. destruct (list_truthy results).
  - unfold bind at 1, lift.
    destruct (validate_ihc_results _) as [validated|e]; [|discriminate].
    unfold bind at 1.
    destruct (write_ihc_to_db validated w1) as [w2 [records|e]] eqn:Ew; [|discriminate].
    apply write_ihc_to_db_count in Ew.
    unfold bind, emit, ret. simpl. intros H. injection H as <- <-. simpl. lia.
  - unfold bind, emit, ret. simpl. intros H. injection H as <- <-. exact Hpos.
Qed.

Lemma process_journeys_count journeys_df w w' records :
  process_journeys config api journeys_df w = (w', Ok records) -> 0 <= records.
Proof.
  unfold process_journeys. destruct journeys_df as [|r df].
  - unfold bind, emit, ret. simpl. intros H. injection H as <- <-. lia.
  - rewrite !bind_emit.
    unfold bind at 1, lift. destruct (py_range _ _ _) as [starts|e]; [|discriminate].
    unfold bind at 1.
    destruct (for_each starts _ (0, 0) _) as [w1 [totals|e]] eqn:Eloop; [|discriminate].
    assert (Htot : 0 <= snd totals).
    { eapply (for_each_invariant (fun t => 0 <= snd t)); [|..|exact Eloop];
        [|simpl; lia].
      intros i t wa wb t' Ht. unfold process_chunk.
      destruct (len _ >? _).
      - unfold bind at 1, emit. simpl.
        apply (for_each_invariant (fun t => 0 <= snd t)); [|exact Ht].
        intros c t1 wc wd t1' Ht1. unfold process_single.
        destruct (len _ >? _).
        + unfold bind, emit, ret. simpl. intros H. now injection H as <- <-.
        + rewrite bind_emit. now apply send_validate_write_count.
      - rewrite bind_emit. now apply send_validate_write_count. }
    unfold bind, emit, verify_ihc_data, get_table, ret, bind. simpl.
    intros H. injection H as <- <-. exact Htot.
Qed.

End Counts.

Section PipelineFacts.

Variable to_datetime : string -> Z.
Variable strftime : Z -> string.
Variable config : PipelineConfig.
Variable api : journeys_frame -> http_outcome.

(** [run_pipeline], exit by exit. *)
Lemma run_pipeline_cases db journeys_path report_path start_date end_date :
  let run := run_pipeline to_datetime strftime config api journeys_path report_path
                          start_date end_date (initial_world db) in
  let journeys_df := build_journeys to_datetime strftime db start_date end_date in
  match journeys_df with
  | [] =>
      run = ({| store := db;
                out := [PrintStep banner_step1;
                        PrintHalt "No customer journeys were found for the given date range";
                        PrintHalt "No journeys were found. Pipeline cannot continue."] |},
             Ok tt)
  | _ :: _ =>
      match process_journeys config api journeys_df
              (world_at_submission db journeys_path journeys_df) with
      | (w, Raise e) => run = (w, Raise e)
      | (w, Ok records) =>
          if records =? 0
          then run = ({| store := store w;
                         out := out w ++
                                [PrintHalt "No IHC records were written. Pipeline cannot continue."] |},
                      Ok tt)
          else run = ({| store := store w;
                         out := ((out w ++ [PrintStep banner_step3])
                                   ++ [Report report_path])
                                  ++ [PrintStep banner_done] |},
                      Ok tt)
      end
  end.
Proof.
  cbv beta iota zeta delta
      [run_pipeline run_step_build_journeys build_and_save run_step_send_to_api
       run_step_generate_report bind emit get_store ret store out initial_world
       world_at_submission app].
  destruct (build_journeys to_datetime strftime db start_date end_date) as [|r df].
  - reflexivity.
  - destruct (process_journeys config api (r :: df) _) as [w [records|e]];
      [|reflexivity].
    destruct (records =? 0); reflexivity.
Qed.

End PipelineFacts.

(** C8, no success value. A run that the first gate blocks (no conversions,
    so no journeys) and a run that completes all three stages both return
    the same value, Python's [None]: nothing that the caller receives tells
    a blocked run from a completed one, so the claim as worded fails. *)
Lemma blocked_run_returns_what_a_completed_run_returns :
  snd (run_pipeline example_to_datetime example_strftime one_per_request api_halves
                    "customer_journeys.csv" "channel_reporting.csv" None None
                    (initial_world empty_db)) = Ok tt
  /\ snd (run_pipeline example_to_datetime example_strftime one_per_request api_halves
                       "customer_journeys.csv" "channel_reporting.csv" None None
                       (initial_world scenario_a)) = Ok tt
  /\ stage_attempted banner_done
       (fst (run_pipeline example_to_datetime example_strftime one_per_request api_halves
                          "customer_journeys.csv" "channel_reporting.csv" None None
                          (initial_world scenario_a)))
  /\ ~ gate_reports_failure.
Proof.
  assert (Hdone : stage_attempted banner_done
       (fst (run_pipeline example_to_datetime example_strftime one_per_request api_halves
                          "customer_journeys.csv" "channel_reporting.csv" None None
                          (initial_world scenario_a)))).
  { vm_compute. repeat (first [left; reflexivity | right]). }
  split; [vm_compute; reflexivity|]. split; [vm_compute; reflexivity|].
  split; [exact Hdone|].
  intros [success H].
  pose proof (H example_to_datetime example_strftime one_per_request api_halves
                empty_db "customer_journeys.csv" "channel_reporting.csv" None None) as H1.
  pose proof (H example_to_datetime example_strftime one_per_request api_halves
                scenario_a "customer_journeys.csv" "channel_reporting.csv" None None) as H2.
  cbv zeta in H1, H2.
  destruct H1 as [H1 _]. destruct H2 as [_ [_ H2]].
  specialize (H1 eq_refl). specialize (H2 Hdone).
  vm_compute in H1. vm_compute in H2. congruence.
Qed.

Ltac banner_absurd H :=
  exfalso; unfold banner_step1, banner_step2, banner_step3, banner_done in H;
  simpl in H; intuition discriminate.

(** C8, amended. In [run_pipeline] the submission stage is attempted exactly
    when the building stage produced a journey frame that is not empty, and
    the report stage is attempted exactly when, besides, the submission stage
    returned a strictly positive count of rows written.  A run that a gate
    blocks attempts no later stage, prints why it halts, and returns
    ([None]) as a completed run does: [run_pipeline] has no success value. *)
Theorem run_pipeline_gates_stages :
  forall (to_datetime : string -> Z) (strftime : Z -> string)
         (config : PipelineConfig) (api : journeys_frame -> http_outcome)
         (db : database) (journeys_path report_path : string)
         (start_date end_date : option string),
    let run := run_pipeline to_datetime strftime config api journeys_path report_path
                            start_date end_date (initial_world db) in
    let journeys_df := build_journeys to_datetime strftime db start_date end_date in
    let submission := process_journeys config api journeys_df
                        (world_at_submission db journeys_path journeys_df) in
    (stage_attempted banner_step2 (fst run) <-> journeys_df <> [])
    /\ (stage_attempted banner_step3 (fst run) <->
        journeys_df <> []
        /\ exists records, snd submission = Ok records /\ 0 < records)
    /\ (journeys_df = [] ->
        snd run = Ok tt
        /\ banners (out (fst run)) = [banner_step1]
        /\ In (PrintHalt "No journeys were found. Pipeline cannot continue.")
              (out (fst run)))
    /\ (journeys_df <> [] -> snd submission = Ok 0 ->
        snd run = Ok tt
        /\ banners (out (fst run)) = [banner_step1; banner_step2]
        /\ In (PrintHalt "No IHC records were written. Pipeline cannot continue.")
              (out (fst run)))
    /\ (stage_attempted banner_done (fst run) -> snd run = Ok tt).
Proof.
  intros td sf config api db jp rp s e run journeys_df submission.
  pose proof (run_pipeline_cases td sf config api db jp rp s e) as Hcases.
  cbv zeta in Hcases. fold run journeys_df in Hcases.
  unfold stage_attempted.
  destruct journeys_df as [|r df] eqn:Edf.
  - rewrite Hcases. simpl.
    split; [|split; [|split; [|split]]].
    + split; [intros H; banner_absurd H|congruence].
    + split; [intros H; banner_absurd H|intros [H _]; congruence].
    + intros _. split; [reflexivity|]. split; [reflexivity|]. now right; right; left.
    + congruence.
    + intros H. banner_absurd H.
  - fold submission in Hcases.
    pose proof (banners_of_run config api (r :: df) (world_at_submission db jp (r :: df)))
      as Hb.
    fold submission in Hb. simpl in Hb.
    pose proof (process_journeys_count config api (r :: df)
                  (world_at_submission db jp (r :: df))) as Hcount.
    fold submission in Hcount.
    destruct submission as [w [records|ex]] eqn:Es; simpl in Hb, Hcases |- *.
    + specialize (Hcount w records eq_refl).
      destruct (records =? 0) eqn:E0; rewrite Hcases; simpl;
        unfold banners in *; rewrite ?project_app, Hb; simpl.
      * apply Z.eqb_eq in E0. subst records.
        split; [|split; [|split; [|split]]].
        -- split; [discriminate|]. intros _. now right; left.
        -- split; [intros H; banner_absurd H|].
           intros [_ [n [Hn Hpos]]]. injection Hn as <-. lia.
        -- discriminate.
        -- intros _ _. split; [reflexivity|]. split; [reflexivity|].
           apply in_or_app. right. now left.
        -- intros H. banner_absurd H.
      * apply Z.eqb_neq in E0.
        split; [|split; [|split; [|split]]].
        -- split; [discriminate|]. intros _. now right; left.
        -- split; [|intros _; now right; right; left].
           intros _. split; [discriminate|].
           exists records. split; [reflexivity|lia].
        -- discriminate.
        -- intros _ H. injection H as ->. contradiction.
        -- reflexivity.
    + rewrite Hcases. simpl. unfold banners in *. rewrite Hb.
      split; [|split; [|split; [|split]]].
      * split; [discriminate|]. intros _. now right; left.
      * split; [intros H; banner_absurd H|].
        intros [_ [n [Hn _]]]. discriminate.
      * discriminate.
      * discriminate.
      * intros H. banner_absurd H.
Qed.

(* ------------------------------------------------------------------ *)
(** ** The intermediate artifact *)
(* ------------------------------------------------------------------ *)





(* ------------------------------------------------------------------ *)
(** ** The tokenizer reads what the writer wrote *)
(* ------------------------------------------------------------------ *)

Section TokenizerFacts.

#[local] Arguments Ascii.eqb : simpl never.































End TokenizerFacts.




(* ================================================================== *)
(** * Further properties of the normalizer *)
(* ================================================================== *)

Lemma group_by_conversion_missing_key rs d :
  Exists (fun r => res_conversion_id r = None) rs ->
  group_by_conversion rs d = Raise (KeyError "conversion_id").
Proof.
  intros H. revert d. induction H as [r rs Hr|r rs H IH]; intros d; simpl.
  - now rewrite Hr.
  - destruct (res_conversion_id r); [apply IH|reflexivity].
Qed.

(** X1. One dict without the key 'conversion_id' anywhere in the response
    makes [validate_ihc_results] end in KeyError('conversion_id'): the
    grouping loop runs over the whole response before any weight is read, so
    no row of the response is validated, whatever the other rows are. *)
Theorem validate_ihc_results_missing_conversion_id :
  forall ihc_results : list ihc_result,
    Exists (fun r => res_conversion_id r = None) ihc_results ->
    validate_ihc_results ihc_results = Raise (KeyError "conversion_id").
Proof.
  intros rs H. unfold validate_ihc_results.
  destruct rs as [|r rs]; [inversion H|].
  now rewrite group_by_conversion_missing_key.
Qed.

(** A well-formed row followed by a row without conversion id. *)
Lemma validate_ihc_results_missing_conversion_id_example :
  validate_ihc_results
    [ full_result "C1" "S1" 1;
      {| res_conversion_id := None; res_session_id := Some "S2"; res_ihc := Some 1%float |} ]
  = Raise (KeyError "conversion_id").
Proof.
  apply validate_ihc_results_missing_conversion_id.
  apply Exists_cons_tl, Exists_cons_hd. reflexivity.
Defined.

Lemma dict_values_append {R} (d : list (string * list R)) c (r : R) :
  Permutation (dict_values (dict_append d c r)) (dict_values d ++ [r]).
Proof.
  unfold dict_values. induction d as [|[k g] d IH]; simpl.
  - reflexivity.
  - destruct (String.eqb k c); simpl.
    + rewrite <- !app_assoc. apply Permutation_app_head.
      apply Permutation_app_comm.
    + rewrite <- app_assoc. now apply Permutation_app_head.
Qed.

Lemma group_by_conversion_values rs d d' :
  group_by_conversion rs d = Ok d' ->
  Permutation (dict_values d') (dict_values d ++ rs).
Proof.
  revert d. induction rs as [|r rs IH]; intros d H; simpl in H.
  - injection H as <-. now rewrite app_nil_r.
  - destruct (res_conversion_id r) as [c|]; [|discriminate].
    rewrite (IH _ H), dict_values_append, <- app_assoc. reflexivity.
Qed.

Lemma rescale_all_ids s g g' :
  rescale_all s g = Ok g' -> map result_ids g' = map result_ids g.
Proof.
  revert g'. induction g as [|r g IH]; intros g' H; simpl in H.
  - now injection H as <-.
  - unfold rescale in H. destruct (res_ihc r); [|discriminate].
    destruct (s =? 0)%float; [discriminate|]. simpl in H.
    destruct (rescale_all s g) as [rest|]; [|discriminate].
    simpl in H. injection H as <-. simpl. now rewrite (IH rest eq_refl).
Qed.

Lemma normalize_sessions_ids g g' :
  normalize_sessions g = Ok g' -> map result_ids g' = map result_ids g.
Proof.
  unfold normalize_sessions. destruct (ihc_sum_of g) as [s|]; [|discriminate].
  simpl. destruct (off_by_more_than_tolerance s).
  - destruct (rescale_all s g) as [g1|] eqn:E; [|discriminate]. simpl.
    destruct (ihc_sum_of g1); [|discriminate]. simpl.
    intros H. injection H as <-. now apply rescale_all_ids in E.
  - simpl. destruct (ihc_sum_of g); [|discriminate]. simpl.
    intros H. now injection H as <-.
Qed.

Lemma normalize_groups_ids d acc out :
  normalize_groups d acc = Ok out ->
  map result_ids out = map result_ids acc ++ map result_ids (dict_values d).
Proof.
  unfold dict_values. revert acc. induction d as [|[k g] d IH]; intros acc H; simpl in H.
  - injection H as <-. simpl. now rewrite app_nil_r.
  - destruct (normalize_sessions g) as [g'|] eqn:E; [|discriminate]. simpl in H.
    rewrite (IH _ H). simpl. rewrite !map_app, (normalize_sessions_ids _ _ E).
    now rewrite app_assoc.
Qed.

Lemma validate_ihc_results_ids rs out :
  validate_ihc_results rs = Ok out ->
  Permutation (map result_ids out) (map result_ids rs).
Proof.
  unfold validate_ihc_results. destruct rs as [|r rs].
  - intros H. now injection H as <-.
  - destruct (group_by_conversion (r :: rs) []) as [d|] eqn:E; [|discriminate].
    cbn [rbind]. intros H. apply normalize_groups_ids in H. rewrite H.
    change (map result_ids [] ++ map result_ids (dict_values d))
      with (map result_ids (dict_values d)).
    apply Permutation_map. apply (group_by_conversion_values _ _ _ E).
Qed.

(** X2. When [validate_ihc_results] returns, it returns the rows it was
    given, regrouped: the pairs (conversion_id, session_id) of the result are
    a rearrangement of those of the response, and there are as many rows.
    No row is dropped, repeated or given another id; only weights change. *)
Theorem validate_ihc_results_keeps_rows :
  forall ihc_results validated : list ihc_result,
    validate_ihc_results ihc_results = Ok validated ->
    Permutation (map result_ids validated) (map result_ids ihc_results)
    /\ List.length validated = List.length ihc_results.
Proof.
  intros rs out H. pose proof (validate_ihc_results_ids rs out H) as Hp.
  split; [exact Hp|].
  apply Permutation_length in Hp. now rewrite !length_map in Hp.
Qed.

(** Two conversions with interleaved rows. *)
Lemma validate_ihc_results_keeps_rows_example :
  Permutation
    (map result_ids
       [full_result "A" "S1" 0.5; full_result "A" "S3" 0.5;
        full_result "B" "S2" 1])
    (map result_ids
       [full_result "A" "S1" 0.5; full_result "B" "S2" 1;
        full_result "A" "S3" 0.5])
  /\ List.length
       [full_result "A" "S1" 0.5; full_result "A" "S3" 0.5;
        full_result "B" "S2" 1]
     = List.length
         [full_result "A" "S1" 0.5; full_result "B" "S2" 1;
          full_result "A" "S3" 0.5].
Proof.
  apply validate_ihc_results_keeps_rows. vm_compute. reflexivity.
Defined.

Lemma dict_get_Some_key {R} (d : list (string * list R)) k g :
  dict_get d k = Some g -> In k (map fst d).
Proof.
  induction d as [|[k' g'] d IH]; simpl; [discriminate|].
  destruct (String.eqb k' k) eqn:E.
  - apply String.eqb_eq in E. now left.
  - intros H. right. now apply IH.
Qed.

Lemma unique_from_ext seen1 seen2 l :
  (forall x, In x seen1 <-> In x seen2) ->
  unique_from seen1 l = unique_from seen2 l.
Proof.
  revert seen1 seen2. induction l as [|a l IH]; intros s1 s2 H; simpl; [reflexivity|].
  assert (E : existsb (String.eqb a) s1 = existsb (String.eqb a) s2).
  { destruct (existsb (String.eqb a) s1) eqn:E1; symmetry.
    - apply existsb_eqb_In. apply H. now apply existsb_eqb_In.
    - destruct (existsb (String.eqb a) s2) eqn:E2; [|reflexivity].
      apply existsb_eqb_In in E2. apply H in E2. apply existsb_eqb_In in E2.
      congruence. }
  rewrite E. destruct (existsb (String.eqb a) s2).
  - now apply IH.
  - f_equal. apply IH. intros x. simpl. rewrite H. tauto.
Qed.

Lemma group_rows_keys rows d :
  map fst (group_rows rows d)
  = map fst d ++ unique_from (map fst d) (map ar_conv_id rows).
Proof.
  revert d. induction rows as [|r rows IH]; intros d; simpl.
  - now rewrite app_nil_r.
  - unfold group_rows in *. simpl. rewrite IH, dict_keys_append.
    destruct (dict_get d (ar_conv_id r)) eqn:E.
    + apply dict_get_Some_key in E. apply existsb_eqb_In in E.
      now rewrite E, app_nil_r.
    + apply dict_get_None in E.
      destruct (existsb (String.eqb (ar_conv_id r)) (map fst d)) eqn:E2.
      * apply existsb_eqb_In in E2. contradiction.
      * rewrite <- app_assoc. simpl. f_equal. f_equal.
        apply unique_from_ext. intros x. rewrite in_app_iff. simpl. tauto.
Qed.

Lemma dict_of_keys {R} (d : list (string * list R)) (f : string -> list R) :
  NoDup (map fst d) ->
  (forall k, In k (map fst d) -> dict_get d k = Some (f k)) ->
  d = map (fun k => (k, f k)) (map fst d).
Proof.
  induction d as [|[k g] d IH]; simpl; intros Hnd Hget; [reflexivity|].
  inversion Hnd as [|? ? Hnotin Hnd']; subst.
  pose proof (Hget k (or_introl eq_refl)) as Hk.
  rewrite String.eqb_refl in Hk. injection Hk as ->.
  f_equal. apply IH; [exact Hnd'|].
  intros k' Hk'. specialize (Hget k' (or_intror Hk')).
  destruct (String.eqb k k') eqn:E; [|exact Hget].
  apply String.eqb_eq in E. subst k'. contradiction.
Qed.

Lemma group_rows_by_unique rows :
  group_rows rows []
  = map (fun c => (c, weights_of c rows)) (unique (map ar_conv_id rows)).
Proof.
  destruct (grouped_group_rows rows [] [] grouped_nil) as [Hnd Hget]. simpl in Hget.
  pose proof (group_rows_keys rows []) as Hkeys. simpl in Hkeys.
  fold (unique (map ar_conv_id rows)) in Hkeys.
  rewrite <- Hkeys. apply dict_of_keys; [exact Hnd|].
  intros k Hk. rewrite Hget. rewrite Hkeys in Hk.
  apply (proj1 (unique_In _ _)) in Hk.
  apply (proj2 (existsb_eqb_In _ _)) in Hk. now rewrite Hk.
Qed.

Lemma validated_rows_groups rows :
  validated_rows rows
  = flat_map (fun kv => normalized (snd kv)) (group_rows rows []).
Proof.
  rewrite group_rows_by_unique, flat_map_after_map. reflexivity.
Qed.

Lemma weights_of_validated_rows rows c :
  no_zero_sum rows -> In c (map ar_conv_id rows) ->
  weights_of c (validated_rows rows) = normalized (weights_of c rows).
Proof.
  intros Hnz Hc. rewrite validated_rows_groups.
  now apply (proj2 (validate_ihc_results_typed rows Hnz)).
Qed.

(** X3. For a response of well-formed rows in which no conversion's weights
    have a sum that compares equal to zero, [validate_ihc_results] returns
    the conversions in the order in which each first occurs in the response,
    each with all its rows together and in their order of arrival.  The rows
    of a conversion whose sum s (of doubles, added from the left) has
    abs(s - 1.0) > 0.0001 come back with each weight replaced by the double
    quotient weight / s; the rows of any other conversion come back
    untouched. *)
Theorem validate_ihc_results_groups_by_first_occurrence :
  forall rows : list attribution_row,
    no_zero_sum rows ->
    validate_ihc_results (map to_result rows) = Ok (map to_result (validated_rows rows))
    /\ forall c,
         In c (map ar_conv_id rows) ->
         let g := weights_of c rows in
         weights_of c (validated_rows rows)
         = if off_by_more_than_tolerance (weight_sum g)
           then map (scaled (weight_sum g)) g
           else g.
Proof.
  intros rows Hnz. split.
  - destruct (validate_ihc_results_typed rows Hnz) as [Hv _].
    rewrite Hv, validated_rows_groups. reflexivity.
  - intros c Hc g. unfold g. now rewrite weights_of_validated_rows.
Qed.

(** Rows of two conversions that arrive interleaved come back grouped; the
    weights 0.3 and 0.3 of A are rescaled, the weight 1.0 of B is not. *)
Lemma validate_ihc_results_groups_by_first_occurrence_example :
  validate_ihc_results
    (map to_result
       [ {| ar_conv_id := "A"; ar_session_id := "S1"; ar_ihc := 0.3 |};
         {| ar_conv_id := "B"; ar_session_id := "S2"; ar_ihc := 1 |};
         {| ar_conv_id := "A"; ar_session_id := "S3"; ar_ihc := 0.3 |} ])
  = Ok [full_result "A" "S1" 0.5; full_result "A" "S3" 0.5; full_result "B" "S2" 1].
Proof.
  refine (eq_trans
            (proj1 (validate_ihc_results_groups_by_first_occurrence
                      [ {| ar_conv_id := "A"; ar_session_id := "S1"; ar_ihc := 0.3 |};
                        {| ar_conv_id := "B"; ar_session_id := "S2"; ar_ihc := 1 |};
                        {| ar_conv_id := "A"; ar_session_id := "S3"; ar_ihc := 0.3 |} ]
                      _)) _).
  - intros c [<-|[<-|[<-|[]]]]; vm_compute; reflexivity.
  - vm_compute. reflexivity.
Defined.

Lemma unique_from_skip seen l1 l2 :
  (forall x, In x l1 -> In x seen) ->
  unique_from seen (l1 ++ l2) = unique_from seen l2.
Proof.
  induction l1 as [|a l1 IH]; intros H; simpl; [reflexivity|].
  replace (existsb (String.eqb a) seen) with true.
  - apply IH. intros x Hx. apply H. now right.
  - symmetry. apply existsb_eqb_In. apply H. now left.
Qed.

(* ================================================================== *)
(** * Further properties of the writer and of the submission loop *)
(* ================================================================== *)

Lemma extract_rows_length rs rows :
  extract_rows rs = Ok rows -> List.length rows = List.length rs.
Proof.
  revert rows. induction rs as [|r rs IH]; intros rows H; simpl in H.
  - now injection H as <-.
  - destruct (res_conversion_id r); [|discriminate].
    destruct (res_session_id r); [|discriminate].
    destruct (res_ihc r); [|discriminate].
    destruct (extract_rows rs) as [rest|]; [|discriminate].
    simpl in H. injection H as <-. simpl. now rewrite (IH rest eq_refl).
Qed.



Section Failures.

Variable config : PipelineConfig.
Variable api : journeys_frame -> http_outcome.

Lemma leaves_store_ret {A} (a : A) : leaves_store (ret a) a.
Proof. intros w. exists []. unfold ret. rewrite app_nil_r. now destruct w. Qed.

Lemma leaves_store_emit e : leaves_store (emit e) tt.
Proof. intros w. now exists [e]. Qed.

Lemma leaves_store_bind {A B} (c : M A) (f : A -> M B) a b :
  leaves_store c a -> leaves_store (f a) b -> leaves_store (bind c f) b.
Proof.
  intros Hc Hf w. unfold bind. destruct (Hc w) as [evs ->].
  destruct (Hf {| store := store w; out := out w ++ evs |}) as [evs' ->].
  exists (evs ++ evs'). simpl. now rewrite app_assoc.
Qed.

Lemma leaves_store_for_each {Y S} (body : Y -> S -> M S) (ys : list Y) (s : S) :
  (forall y, In y ys -> leaves_store (body y s) s) ->
  leaves_store (for_each ys body s) s.
Proof.
  induction ys as [|y ys IH]; intros H; simpl.
  - apply leaves_store_ret.
  - eapply leaves_store_bind; [apply H; now left|].
    apply IH. intros y' Hy'. apply H. now right.
Qed.

Lemma send_validate_write_failed journey_data n totals :
  failed_submission (api journey_data) ->
  leaves_store (send_validate_write api journey_data n totals) totals.
Proof.
  intros Hfail w.
  unfold send_validate_write, send_journeys_to_api, bind, emit, ret. simpl.
  destruct (api journey_data) as [|status_code body]; simpl.
  - eexists. rewrite <- !app_assoc. reflexivity.
  - destruct (status_code =? 200) eqn:E; simpl.
    + apply Z.eqb_eq in E.
      destruct Hfail as [H|[->| ->]]; [contradiction| |]; simpl;
        eexists; rewrite <- !app_assoc; reflexivity.
    + eexists. rewrite <- !app_assoc. reflexivity.
Qed.

Lemma process_single_failed journeys_df conv_id totals :
  (forall journey_data, failed_submission (api journey_data)) ->
  leaves_store (process_single config api journeys_df conv_id totals) totals.
Proof.
  intros Hfail. unfold process_single.
  destruct (len _ >? _).
  - eapply leaves_store_bind; [apply leaves_store_emit|apply leaves_store_ret].
  - eapply leaves_store_bind; [apply leaves_store_emit|].
    now apply send_validate_write_failed.
Qed.

Lemma process_chunk_failed journeys_df u i totals :
  (forall journey_data, failed_submission (api journey_data)) ->
  leaves_store (process_chunk config api journeys_df u i totals) totals.
Proof.
  intros Hfail. unfold process_chunk.
  destruct (len _ >? _).
  - eapply leaves_store_bind; [apply leaves_store_emit|].
    apply leaves_store_for_each. intros c _. now apply process_single_failed.
  - eapply leaves_store_bind; [apply leaves_store_emit|].
    now apply send_validate_write_failed.
Qed.

Lemma leaves_store_verify : leaves_store verify_ihc_data tt.
Proof. intros w. unfold verify_ihc_data, bind, get_table, emit. eauto. Qed.

End Failures.

(** X7. When the service fails for every request (the request raises, the
    status is not 200, or the body is not a JSON object), a run of
    [process_journeys] with a non-zero [max_journeys_per_request] still
    returns, with a count of 0, and leaves the whole store as it found it:
    the table keeps the rows of earlier runs. *)
Theorem process_journeys_survives_failing_service :
  forall (config : PipelineConfig) (api : journeys_frame -> http_outcome)
         (journeys_df : journeys_frame),
    max_journeys_per_request config <> 0 ->
    (forall journey_data, failed_submission (api journey_data)) ->
    leaves_store (process_journeys config api journeys_df) 0.
Proof.
  intros config api df Hm Hfail. unfold process_journeys.
  destruct df as [|r df].
  - eapply leaves_store_bind; [apply leaves_store_emit|apply leaves_store_ret].
  - eapply leaves_store_bind; [apply leaves_store_emit|].
    eapply leaves_store_bind; [apply leaves_store_emit|].
    unfold py_range.
    replace (max_journeys_per_request config =? 0) with false
      by (symmetry; now apply Z.eqb_neq).
    intros w. unfold bind at 1, lift. revert w.
    eapply leaves_store_bind.
    + apply leaves_store_for_each. intros i _. now apply process_chunk_failed.
    + eapply leaves_store_bind; [apply leaves_store_emit|].
      eapply leaves_store_bind; [apply leaves_store_verify|].
      apply leaves_store_ret.
Qed.

(** A service that is down, and a table with a row of an earlier run. *)
Lemma process_journeys_survives_failing_service_example :
  exists evs,
    process_journeys one_per_request (fun _ => RequestException) two_journeys
                     (initial_world db_after_earlier_run)
    = ({| store := db_after_earlier_run; out := evs |}, Ok 0).
Proof.
  refine (process_journeys_survives_failing_service
            one_per_request (fun _ => RequestException) two_journeys _ _
            (initial_world db_after_earlier_run)).
  - discriminate.
  - intros jd. exact I.
Defined.

(** X8. A step that is not positive. With [max_journeys_per_request = 0] a
    run over a non-empty frame prints its two opening lines (the number of
    conversions and the limits) and then ends in ValueError, the zero step of
    [range]: no request is sent, no skip is reported and the store is as it
    was.  With a negative value the loop body never runs: after the opening
    lines the run goes straight to its closing lines and returns 0, having
    sent no request, reported no skip and left the store as it was, whatever
    journeys the frame holds. *)
Theorem process_journeys_with_step_not_positive :
  forall (config : PipelineConfig) (api : journeys_frame -> http_outcome)
         (r : journey_row string) (rest : journeys_frame) (w : world),
    let opening :=
      [PrintProcessing (len (unique (map jr_conversion_id (r :: rest))));
       PrintLimits (max_journeys_per_request config)
                   (max_sessions_per_request config)] in
    (max_journeys_per_request config = 0 ->
     process_journeys config api (r :: rest) w
     = ({| store := store w; out := out w ++ opening |}, Raise ValueError))
    /\ (max_journeys_per_request config < 0 ->
        process_journeys config api (r :: rest) w
        = ({| store := store w;
              out := out w ++ opening ++
                     [PrintCompleted 0 0;
                      PrintVerification (len (unique (map ar_conv_id (table w))))] |},
           Ok 0)).
Proof.
  intros config api r rest w opening. unfold opening.
  unfold process_journeys, py_range. rewrite !bind_emit. split.
  - intros ->. cbn [Z.eqb]. unfold bind, lift. simpl.
    rewrite <- app_assoc. reflexivity.
  - intros Hneg.
    replace (max_journeys_per_request config =? 0) with false
      by (symmetry; apply Z.eqb_neq; lia).
    unfold range_length.
    replace (0 <? max_journeys_per_request config) with false
      by (symmetry; apply Z.ltb_ge; lia).
    replace (len (unique (map jr_conversion_id (r :: rest))) <? 0) with false
      by (symmetry; apply Z.ltb_ge; unfold len; lia).
    cbv [Z.to_nat seq map bind lift for_each ret emit verify_ihc_data get_table
         fst snd store out].
    rewrite <- !app_assoc. reflexivity.
Qed.

Lemma In_skipn {A} (n : nat) (l : list A) x : In x (skipn n l) -> In x l.
Proof.
  intros H. rewrite <- (firstn_skipn n l). apply in_or_app. now right.
Qed.

Lemma In_firstn {A} (n : nat) (l : list A) x : In x (firstn n l) -> In x l.
Proof.
  intros H. rewrite <- (firstn_skipn n l). apply in_or_app. now left.
Qed.

Lemma slice_In {A} (u : list A) i j x : In x (slice u i j) -> In x u.
Proof. unfold slice. intros H. eapply In_skipn, In_firstn, H. Qed.

Lemma slice_nonempty {A} (u : list A) i m :
  0 < m -> 0 <= i < len u -> slice u i (i + m) <> [].
Proof.
  intros Hm [Hi Hlt]. unfold slice, len in *.
  replace (i + m - i) with m by lia.
  destruct (skipn (Z.to_nat i) u) as [|x l] eqn:E.
  - apply (f_equal (@List.length A)) in E. rewrite length_skipn in E.
    simpl in E. lia.
  - destruct (Z.to_nat m) eqn:Em; [lia|]. simpl. discriminate.
Qed.

Lemma py_range_starts (total m : Z) (starts : list Z) :
  0 < m -> py_range 0 total m = Ok starts ->
  Forall (fun i => 0 <= i < total) starts.
Proof.
  intros Hm. unfold py_range.
  replace (m =? 0) with false by (symmetry; apply Z.eqb_neq; lia).
  intros H. injection H as <-. apply Forall_forall. intros i Hi.
  apply in_map_iff in Hi. destruct Hi as [k [<- Hk]]. apply in_seq in Hk.
  unfold range_length in Hk.
  replace (0 <? m) with true in Hk by (symmetry; now apply Z.ltb_lt).
  destruct (0 <? total) eqn:E; [|simpl in Hk; lia].
  apply Z.ltb_lt in E. rewrite Z.sub_0_r in Hk.
  assert (Hdiv : 0 <= (total - 1) / m) by (apply Z.div_pos; lia).
  assert (Hk' : Z.of_nat k <= (total - 1) / m) by lia.
  pose proof (Z.mul_div_le (total - 1) m Hm).
  split; [lia|]. nia.
Qed.

Section Chunks.

Variable config : PipelineConfig.
Variable journeys_df : journeys_frame.

Lemma rows_eq_nonempty c :
  In c (map jr_conversion_id journeys_df) -> rows_eq journeys_df c <> [].
Proof.
  intros Hc Hnil. apply in_map_iff in Hc. destruct Hc as [r [Hr Hin]].
  assert (H : In r (rows_eq journeys_df c))
    by (apply rows_eq_conversion_id; tauto).
  rewrite Hnil in H. destruct H.
Qed.

Lemma rows_isin_nonempty ch c :
  In c ch -> In c (map jr_conversion_id journeys_df) ->
  rows_isin journeys_df ch <> [].
Proof.
  intros Hch Hc Hnil. apply in_map_iff in Hc. destruct Hc as [r [Hr Hin]].
  assert (H : In r (rows_isin journeys_df ch)).
  { apply rows_isin_conversion_id. rewrite Hr. tauto. }
  rewrite Hnil in H. destruct H.
Qed.

(** The chunk that starts at an index of [range] has a member, and its
    members are conversions of the frame. *)
Lemma chunk_of_start i :
  0 < max_journeys_per_request config ->
  0 <= i < len (unique (map jr_conversion_id journeys_df)) ->
  let ch := slice (unique (map jr_conversion_id journeys_df)) i
                  (i + max_journeys_per_request config) in
  (exists c, In c ch) /\ incl ch (map jr_conversion_id journeys_df).
Proof.
  intros Hm Hi ch. split.
  - pose proof (slice_nonempty _ i _ Hm Hi) as Hne. fold ch in Hne.
    destruct ch as [|c l]; [contradiction|]. exists c. now left.
  - intros x Hx. apply slice_In in Hx. now apply unique_In.
Qed.

Lemma batch_plan_starts d :
  0 < max_journeys_per_request config ->
  In d (batch_plan config journeys_df) ->
  exists i,
    0 <= i < len (unique (map jr_conversion_id journeys_df))
    /\ In d (chunk_decisions config journeys_df
                             (unique (map jr_conversion_id journeys_df)) i).
Proof.
  intros Hm. unfold batch_plan.
  destruct journeys_df as [|r df] eqn:E; [intros []|]. rewrite <- E.
  destruct (py_range _ _ _) as [starts|] eqn:Er; [|intros []].
  apply py_range_starts in Er; [|exact Hm].
  intros Hin. apply in_flat_map in Hin. destruct Hin as [i [Hi Hd]].
  rewrite Forall_forall in Er. exists i. split; [now apply Er|exact Hd].
Qed.

End Chunks.

(** X9. No empty request. For a positive [max_journeys_per_request], every
    request body that a run of [process_journeys] posts holds at least one
    row. *)
Theorem process_journeys_posts_no_empty_request :
  forall (config : PipelineConfig) (api : journeys_frame -> http_outcome)
         (journeys_df : journeys_frame) (db : database)
         (journey_data : journeys_frame),
    0 < max_journeys_per_request config ->
    In (Post journey_data)
       (out (fst (process_journeys config api journeys_df (initial_world db)))) ->
    journey_data <> [].
Proof.
  intros config api df db jd Hm Hin.
  apply (project_In decision_of_event _ _ (Submit jd)) in Hin; [|reflexivity].
  destruct (decisions_of_run config api df db) as [Hpre _].
  apply (prefix_of_In _ _ _ Hpre) in Hin.
  apply batch_plan_starts in Hin; [|exact Hm].
  destruct Hin as [i [Hi Hd]].
  destruct (chunk_of_start config df i Hm Hi) as [[c Hc] Hincl].
  unfold chunk_decisions in Hd.
  destruct (len _ >? _).
  - apply in_map_iff in Hd. destruct Hd as [x [Hd Hx]].
    unfold single_decision in Hd. destruct (len _ >? _); [discriminate|].
    injection Hd as <-. apply rows_eq_nonempty. now apply Hincl.
  - destruct Hd as [Hd|[]]. injection Hd as <-.
    apply (rows_isin_nonempty df _ c); [exact Hc|now apply Hincl].
Qed.

(** The two requests of a run with one journey per request. *)
Lemma process_journeys_posts_no_empty_request_example :
  [example_row "c2" "s2"] <> [].
Proof.
  refine (process_journeys_posts_no_empty_request one_per_request (api_uniform 1)
            two_journeys empty_db [example_row "c2" "s2"] _ _).
  - reflexivity.
  - vm_compute. repeat (first [left; reflexivity | right]).
Defined.

(** X10. A frame within both limits goes out whole. When a non-empty frame
    has at most [max_journeys_per_request] distinct conversions and at most
    [max_sessions_per_request] rows, the plan of the run is one request whose
    body is the frame itself, rows in frame order; a run that returns has
    sent exactly that request and reported no skip. *)
Theorem process_journeys_single_request :
  forall (config : PipelineConfig) (api : journeys_frame -> http_outcome)
         (r : journey_row string) (rest : journeys_frame) (db : database),
    len (unique (map jr_conversion_id (r :: rest))) <= max_journeys_per_request config ->
    len (r :: rest) <= max_sessions_per_request config ->
    batch_plan config (r :: rest) = [Submit (r :: rest)]
    /\ forall n,
        snd (process_journeys config api (r :: rest) (initial_world db)) = Ok n ->
        decisions (out (fst (process_journeys config api (r :: rest) (initial_world db))))
        = [Submit (r :: rest)].
Proof.
  intros config api r rest db Hj Hs.
  set (df := r :: rest) in *.
  set (u := unique (map jr_conversion_id df)) in *.
  assert (Hu : 0 < len u).
  { assert (In (jr_conversion_id r) u) by (apply unique_In; now left).
    unfold len. destruct u; [contradiction|]. simpl. lia. }
  assert (Hplan : batch_plan config df = [Submit df]).
  { unfold batch_plan. fold u. unfold df at 1.
    assert (Hr : py_range 0 (len u) (max_journeys_per_request config) = Ok [0]).
    { unfold py_range, range_length.
      replace (max_journeys_per_request config =? 0) with false
        by (symmetry; apply Z.eqb_neq; lia).
      replace (0 <? max_journeys_per_request config) with true
        by (symmetry; apply Z.ltb_lt; lia).
      replace (0 <? len u) with true by (symmetry; now apply Z.ltb_lt).
      rewrite Z.sub_0_r, Z.div_small by lia. reflexivity. }
    rewrite Hr. simpl flat_map. rewrite app_nil_r.
    unfold chunk_decisions, slice.
    replace (Z.to_nat (0 + max_journeys_per_request config - 0))
      with (Z.to_nat (max_journeys_per_request config)) by (f_equal; lia).
    simpl skipn. rewrite firstn_all2 by (unfold len in Hj; lia).
    assert (Hall : rows_isin df u = df).
    { unfold rows_isin. apply filter_all_true. intros x Hx.
      apply existsb_eqb_In. apply unique_In. now apply in_map. }
    rewrite Hall.
    replace (len df >? max_sessions_per_request config) with false; [reflexivity|].
    symmetry. rewrite Z.gtb_ltb. now apply Z.ltb_ge. }
  split; [exact Hplan|].
  intros n Hn.
  destruct (decisions_of_run config api df db) as [_ Hok].
  rewrite (Hok n Hn). exact Hplan.
Qed.

(** Both journeys of the example in one request. *)
Lemma process_journeys_single_request_example :
  batch_plan roomy two_journeys = [Submit two_journeys]
  /\ forall n,
      snd (process_journeys roomy (api_uniform 1) two_journeys (initial_world empty_db))
      = Ok n ->
      decisions (out (fst (process_journeys roomy (api_uniform 1) two_journeys
                                            (initial_world empty_db))))
      = [Submit two_journeys].
Proof.
  refine (process_journeys_single_request roomy (api_uniform 1)
            (example_row "c1" "s1") [example_row "c2" "s2"] empty_db _ _);
    vm_compute; discriminate.
Defined.

Lemma flat_map_ext_in {A B} (f g : A -> list B) (l : list A) :
  (forall a, In a l -> f a = g a) -> flat_map f l = flat_map g l.
Proof.
  induction l as [|a l IH]; intros H; simpl; [reflexivity|].
  rewrite (H a (or_introl eq_refl)), IH; [reflexivity|].
  intros x Hx. apply H. now right.
Qed.

Section NoRoom.

Variable config : PipelineConfig.
Variable api : journeys_frame -> http_outcome.
Variable journeys_df : journeys_frame.
Hypothesis Hm : 0 < max_journeys_per_request config.
Hypothesis Hs : max_sessions_per_request config <= 0.

Lemma no_room_single c :
  In c (map jr_conversion_id journeys_df) ->
  (len (rows_eq journeys_df c) >? max_sessions_per_request config) = true.
Proof.
  intros Hc. apply rows_eq_nonempty in Hc. rewrite Z.gtb_ltb. apply Z.ltb_lt.
  unfold len. destruct (rows_eq journeys_df c); [contradiction|]. simpl. lia.
Qed.

Lemma no_room_chunk i :
  0 <= i < len (unique (map jr_conversion_id journeys_df)) ->
  (len (rows_isin journeys_df
                  (slice (unique (map jr_conversion_id journeys_df)) i
                         (i + max_journeys_per_request config)))
   >? max_sessions_per_request config) = true.
Proof.
  intros Hi. destruct (chunk_of_start config journeys_df i Hm Hi) as [[c Hc] Hincl].
  pose proof (rows_isin_nonempty journeys_df _ c Hc (Hincl c Hc)) as Hne.
  rewrite Z.gtb_ltb. apply Z.ltb_lt.
  unfold len. destruct (rows_isin journeys_df _); [contradiction|]. simpl. lia.
Qed.

(** Without room every conversion is planned as a skip, in the order of
    [unique]. *)
Lemma no_room_plan :
  batch_plan config journeys_df
  = map (fun c => Skip c (len (rows_eq journeys_df c)))
        (unique (map jr_conversion_id journeys_df)).
Proof.
  set (u := unique (map jr_conversion_id journeys_df)).
  destruct (py_range_chunks u (max_journeys_per_request config) Hm)
    as [starts [Hr [Hcat _]]].
  pose proof (py_range_starts _ _ _ Hm Hr) as Hvalid. rewrite Forall_forall in Hvalid.
  assert (H : flat_map (chunk_decisions config journeys_df u) starts
              = map (fun c => Skip c (len (rows_eq journeys_df c))) u).
  { rewrite (flat_map_ext_in _
               (fun i => map (fun c => Skip c (len (rows_eq journeys_df c)))
                             (slice u i (i + max_journeys_per_request config)))).
    - etransitivity; [|apply (f_equal (map _) Hcat)].
      now rewrite concat_map, flat_map_concat_map, map_map.
    - intros i Hi.
      destruct (chunk_of_start config journeys_df i Hm (Hvalid i Hi)) as [_ Hincl].
      unfold chunk_decisions. fold u. unfold u at 1.
      rewrite (no_room_chunk i (Hvalid i Hi)). fold u.
      apply map_ext_in. intros c Hc.
      unfold single_decision. now rewrite (no_room_single c (Hincl c Hc)). }
  unfold batch_plan. fold u. rewrite Hr. clear Hr Hcat Hvalid.
  subst u. destruct journeys_df as [|r rest]; [reflexivity|exact H].
Qed.

Lemma no_room_run : leaves_store (process_journeys config api journeys_df) 0.
Proof.
  unfold process_journeys. destruct journeys_df as [|r rest] eqn:Edf.
  - eapply leaves_store_bind; [apply leaves_store_emit|apply leaves_store_ret].
  - rewrite <- Edf in *.
    eapply leaves_store_bind; [apply leaves_store_emit|].
    eapply leaves_store_bind; [apply leaves_store_emit|].
    destruct (py_range 0 (len (unique (map jr_conversion_id journeys_df)))
                       (max_journeys_per_request config)) as [starts|e] eqn:Er.
    + apply py_range_starts in Er; [|exact Hm]. rewrite Forall_forall in Er.
      intros w. unfold bind at 1, lift. revert w.
      eapply leaves_store_bind.
      * apply leaves_store_for_each. intros i Hi.
        destruct (chunk_of_start config journeys_df i Hm (Er i Hi)) as [_ Hincl].
        unfold process_chunk. rewrite (no_room_chunk i (Er i Hi)).
        eapply leaves_store_bind; [apply leaves_store_emit|].
        apply leaves_store_for_each. intros c Hc.
        unfold process_single. rewrite (no_room_single c (Hincl c Hc)).
        eapply leaves_store_bind; [apply leaves_store_emit|apply leaves_store_ret].
      * eapply leaves_store_bind; [apply leaves_store_emit|].
        eapply leaves_store_bind; [apply leaves_store_verify|].
        apply leaves_store_ret.
    + unfold py_range in Er.
      replace (max_journeys_per_request config =? 0) with false in Er
        by (symmetry; apply Z.eqb_neq; lia).
      discriminate.
Qed.

End NoRoom.

(** X11. A session limit that is not positive lets nothing through. With a
    positive [max_journeys_per_request] and [max_sessions_per_request <= 0],
    a run sends no request and reports every conversion of the frame as
    skipped, each exactly once, in the order of their first rows and with the
    number of its rows; it returns 0 and leaves the store as it found it. *)
Theorem process_journeys_skips_all_without_room :
  forall (config : PipelineConfig) (api : journeys_frame -> http_outcome)
         (journeys_df : journeys_frame) (db : database),
    0 < max_journeys_per_request config ->
    max_sessions_per_request config <= 0 ->
    let run := process_journeys config api journeys_df (initial_world db) in
    snd run = Ok 0
    /\ store (fst run) = db
    /\ decisions (out (fst run))
       = map (fun c => Skip c (len (rows_eq journeys_df c)))
             (unique (map jr_conversion_id journeys_df)).
Proof.
  intros config api df db Hm Hs run.
  destruct (no_room_run config api df Hm Hs (initial_world db)) as [evs Hrun].
  fold run in Hrun.
  assert (Hok : snd run = Ok 0) by now rewrite Hrun.
  split; [exact Hok|]. split; [now rewrite Hrun|].
  destruct (decisions_of_run config api df db) as [_ Hdec].
  fold run in Hdec. rewrite (Hdec 0 Hok). now apply no_room_plan.
Qed.

(** Both journeys of the example are reported as skipped; the table of the
    earlier run stays. *)
Lemma process_journeys_skips_all_without_room_example :
  decisions (out (fst (process_journeys no_sessions_allowed (api_uniform 1) two_journeys
                                        (initial_world db_after_earlier_run))))
  = [Skip "c1" 1; Skip "c2" 1].
Proof.
  refine (eq_trans
            (proj2 (proj2 (process_journeys_skips_all_without_room
                             no_sessions_allowed (api_uniform 1) two_journeys
                             db_after_earlier_run _ _))) _).
  - reflexivity.
  - discriminate.
  - vm_compute. reflexivity.
Defined.

(* ================================================================== *)
(** * What a run writes *)
(* ================================================================== *)

Lemma triple_ret {A} (P : world -> Prop) (a : A) E :
  triple P (ret a) (fun a' w => a' = a /\ P w) E.
Proof. intros w Hw. simpl. auto. Qed.

Lemma triple_bind {A B} P (c : M A) (f : A -> M B) Q R E :
  triple P c Q E -> (forall a, triple (Q a) (f a) R E) -> triple P (bind c f) R E.
Proof.
  intros Hc Hf w Hw. unfold bind. specialize (Hc w Hw).
  destruct (c w) as [w1 [a|e]]; [|exact Hc]. apply (Hf a w1 Hc).
Qed.

Lemma triple_weaken {A} (P P' : world -> Prop) (c : M A) (Q Q' : A -> world -> Prop) E :
  (forall w, P' w -> P w) -> (forall a w, Q a w -> Q' a w) ->
  triple P c Q E -> triple P' c Q' E.
Proof.
  intros HP HQ Hc w Hw. specialize (Hc w (HP w Hw)).
  destruct (c w) as [w1 [a|e]]; auto.
Qed.

Lemma triple_for_each {Y S} (Inv : S -> world -> Prop) (body : Y -> S -> M S) E ys :
  (forall y s, triple (Inv s) (body y s) Inv E) ->
  forall s, triple (Inv s) (for_each ys body s) Inv E.
Proof.
  intros Hbody. induction ys as [|y ys IH]; intros s; simpl.
  - intros w Hw. exact Hw.
  - eapply triple_bind; [apply Hbody|]. intros s'. apply IH.
Qed.

Lemma Zsum_snoc l x : Zsum (l ++ [x]) = Zsum l + x.
Proof. unfold Zsum. induction l as [|a l IH]; simpl; lia. Qed.

Section Accounting.

Variable config : PipelineConfig.
Variable api : journeys_frame -> http_outcome.
Variable t0 : list attribution_row.

(** An event that is no write report keeps the accounts. *)
Lemma accounted_emit e w :
  wrote_of_event e = None ->
  accounted t0 w -> accounted t0 {| store := store w; out := out w ++ [e] |}.
Proof.
  intros He H. unfold accounted, writes, table in *. simpl.
  rewrite project_app. simpl. rewrite He, app_nil_r. exact H.
Qed.

Lemma triple_emit_totals e totals :
  wrote_of_event e = None ->
  triple (totals_accounted t0 totals) (emit e)
         (fun _ => totals_accounted t0 totals) (accounted t0).
Proof.
  intros He w [Hacc Hsum]. simpl. split; [now apply accounted_emit|].
  unfold writes in *. simpl. rewrite project_app. simpl.
  now rewrite He, app_nil_r.
Qed.

Lemma triple_send totals journey_data :
  triple (totals_accounted t0 totals) (send_journeys_to_api api journey_data)
         (fun _ => totals_accounted t0 totals) (accounted t0).
Proof.
  unfold send_journeys_to_api.
  eapply triple_bind; [now apply triple_emit_totals|]. intros ?.
  destruct (api journey_data) as [|status_code body].
  - eapply triple_bind; [now apply triple_emit_totals|]. intros ?.
    intros w Hw. exact Hw.
  - destruct (negb (status_code =? 200)).
    + eapply triple_bind; [now apply triple_emit_totals|]. intros ?.
      intros w Hw. exact Hw.
    + destruct body as [[|code errs value]|].
      * eapply triple_bind; [now apply triple_emit_totals|]. intros ?.
        intros w Hw. exact Hw.
      * eapply triple_bind; [now apply triple_emit_totals|]. intros ?.
        eapply triple_bind with (Q := fun _ => totals_accounted t0 totals).
        -- destruct errs; [intros w Hw; exact Hw|now apply triple_emit_totals].
        -- intros ? w Hw. exact Hw.
      * eapply triple_bind; [now apply triple_emit_totals|]. intros ?.
        intros w Hw. exact Hw.
Qed.

(** Validate, write and report, for a response that is not empty. *)
Lemma triple_validate_write totals n (r : ihc_result) (rs : list ihc_result) :
  triple (totals_accounted t0 totals)
         (bind (lift (validate_ihc_results (r :: rs))) (fun validated_results =>
          bind (write_ihc_to_db validated_results) (fun records =>
          bind (emit (PrintWrote records)) (fun _ =>
          ret (fst totals + n, snd totals + records)))))
         (fun totals' => totals_accounted t0 totals') (accounted t0).
Proof.
  intros w [Hacc Hsum]. unfold bind at 1, lift.
  destruct (validate_ihc_results (r :: rs)) as [validated|e] eqn:Ev; [|exact Hacc].
  assert (Hlen : List.length validated = S (List.length rs)).
  { apply validate_ihc_results_ids, Permutation_length in Ev.
    now rewrite !length_map in Ev. }
  destruct validated as [|v vs]; [discriminate|].
  unfold write_ihc_to_db, bind at 1. unfold bind at 1, lift.
  destruct (extract_rows (v :: vs)) as [rows|e] eqn:Ex; [|exact Hacc].
  apply extract_rows_length in Ex.
  unfold bind, set_table, get_table, ret, emit. simpl.
  destruct Hacc as [Hpos [_ _]].
  assert (Hrows : 0 < len rows) by (unfold len; simpl in Ex; lia).
  unfold totals_accounted, accounted, writes, table in *. simpl.
  rewrite !project_app. simpl. rewrite app_nil_r. repeat split.
  - apply Forall_app. split; [exact Hpos|]. now constructor.
  - intros H. apply app_eq_nil in H. destruct H as [_ H]. discriminate.
  - intros ?. now rewrite last_last.
  - rewrite Zsum_snoc, <- Hsum. reflexivity.
Qed.

Lemma triple_send_validate_write journey_data n totals :
  triple (totals_accounted t0 totals) (send_validate_write api journey_data n totals)
         (fun totals' => totals_accounted t0 totals') (accounted t0).
Proof.
  unfold send_validate_write.
  eapply triple_bind; [apply triple_send|]. intros results. cbv beta.
  eapply triple_bind with (Q := fun totals' => totals_accounted t0 totals').
  - destruct results as [[|r rs]|]; simpl list_truthy; cbv iota.
    + intros w Hw. exact Hw.
    + apply triple_validate_write.
    + intros w Hw. exact Hw.
  - intros totals'.
    eapply triple_bind; [now apply triple_emit_totals|]. intros ?.
    intros w Hw. exact Hw.
Qed.

Lemma triple_process_single journeys_df conv_id totals :
  triple (totals_accounted t0 totals) (process_single config api journeys_df conv_id totals)
         (fun totals' => totals_accounted t0 totals') (accounted t0).
Proof.
  unfold process_single. destruct (len _ >? _).
  - eapply triple_bind; [now apply triple_emit_totals|]. intros ?.
    intros w Hw. exact Hw.
  - eapply triple_bind; [now apply triple_emit_totals|]. intros ?.
    apply triple_send_validate_write.
Qed.

Lemma triple_process_chunk journeys_df u i totals :
  triple (totals_accounted t0 totals) (process_chunk config api journeys_df u i totals)
         (fun totals' => totals_accounted t0 totals') (accounted t0).
Proof.
  unfold process_chunk. destruct (len _ >? _).
  - eapply triple_bind; [now apply triple_emit_totals|]. intros ?.
    apply (triple_for_each (totals_accounted t0)).
    intros c s. apply triple_process_single.
  - eapply triple_bind; [now apply triple_emit_totals|]. intros ?.
    apply triple_send_validate_write.
Qed.

Lemma triple_process_journeys journeys_df :
  triple (totals_accounted t0 (0, 0)) (process_journeys config api journeys_df)
         (fun records w => accounted t0 w /\ records = Zsum (writes (out w)))
         (accounted t0).
Proof.
  unfold process_journeys. destruct journeys_df as [|r df].
  - eapply triple_bind; [now apply triple_emit_totals|]. intros ?.
    intros w [Hacc Hsum]. simpl. split; [exact Hacc|exact Hsum].
  - eapply triple_bind; [now apply triple_emit_totals|]. intros ?.
    eapply triple_bind; [now apply triple_emit_totals|]. intros ?.
    intros w Hw. unfold bind at 1, lift.
    destruct (py_range _ _ _) as [starts|e]; [|exact (proj1 Hw)].
    revert w Hw.
    eapply triple_bind.
    + apply (triple_for_each (totals_accounted t0)).
      intros i s. apply triple_process_chunk.
    + intros totals. cbv beta.
      eapply triple_bind; [now apply triple_emit_totals|]. intros ?.
      eapply triple_bind with (Q := fun _ => totals_accounted t0 totals).
      * unfold verify_ihc_data.
        eapply triple_bind with (Q := fun _ => totals_accounted t0 totals).
        -- intros w Hw. exact Hw.
        -- intros t. now apply triple_emit_totals.
      * intros ? w [Hacc Hsum]. simpl. split; [exact Hacc|exact Hsum].
Qed.

End Accounting.

(** X12. The accounts of a run that returns. Each write that the run
    reported wrote at least one row; the table is untouched when nothing was
    written and otherwise holds exactly as many rows as the last write
    alone; and the count that the run returns is the sum of the counts of all
    its writes, so it exceeds the size of the table as soon as two requests
    succeeded. *)
Theorem process_journeys_accounts :
  forall (config : PipelineConfig) (api : journeys_frame -> http_outcome)
         (journeys_df : journeys_frame) (db : database) (records : Z),
    let run := process_journeys config api journeys_df (initial_world db) in
    let ws := writes (out (fst run)) in
    snd run = Ok records ->
    Forall (fun n => 0 < n) ws
    /\ (ws = [] -> table (fst run) = attribution_customer_journey db)
    /\ (ws <> [] -> len (table (fst run)) = last ws 0)
    /\ records = Zsum ws.
Proof.
  intros config api df db records run ws Hrun.
  assert (Hinit : totals_accounted (attribution_customer_journey db) (0, 0)
                                   (initial_world db)).
  { unfold totals_accounted, accounted, writes. simpl.
    repeat split; auto. intros H. now contradiction H. }
  pose proof (triple_process_journeys config api _ df (initial_world db) Hinit) as H.
  fold run in H. unfold ws.
  destruct run as [w' [n|e]]; simpl in *; [|discriminate].
  injection Hrun as ->.
  destruct H as [[Hpos [Hnone Hlast]] Hsum].
  repeat split; auto.
Qed.

(** Two requests that succeed, one row each: the run returns 2, the sum of
    its two writes, while the table holds one row. *)
Lemma process_journeys_accounts_example :
  writes (out (fst (process_journeys one_per_request (api_uniform 1) two_journeys
                                     (initial_world empty_db))))
  = [1; 1]
  /\ len (table (fst (process_journeys one_per_request (api_uniform 1) two_journeys
                                       (initial_world empty_db))))
     = 1
  /\ 2 = Zsum (writes (out (fst (process_journeys one_per_request (api_uniform 1)
                                                  two_journeys
                                                  (initial_world empty_db))))).
Proof.
  split; [vm_compute; reflexivity|]. split; [vm_compute; reflexivity|].
  refine (proj2 (proj2 (proj2
            (process_journeys_accounts one_per_request (api_uniform 1) two_journeys
               empty_db 2 _)))).
  vm_compute. reflexivity.
Defined.

(* ================================================================== *)
(** * Further properties of the journey builder and the orchestrator *)
(* ================================================================== *)

(** X13. Journeys of one user nest. For two conversions of the same user, the
    sessions selected for the earlier one are those selected for the later
    one that happened no later than the earlier conversion: every touchpoint
    of the earlier journey is a touchpoint of the later journey too
    (touchpoints are not shared out between conversions). *)
Theorem user_sessions_of_earlier_conversion :
  forall (to_datetime : string -> Z) (strftime : Z -> string) (db : database)
         (c1 c2 : conversion_rec),
    cr_user_id c1 = cr_user_id c2 ->
    cr_timestamp c1 <= cr_timestamp c2 ->
    let sessions := read_session_sources to_datetime db in
    user_sessions sessions c1
    = filter (fun s => sr_timestamp s <=? cr_timestamp c1) (user_sessions sessions c2)
    /\ incl (map jr_session_id (contribution to_datetime strftime db c1))
            (map jr_session_id (contribution to_datetime strftime db c2)).
Proof.
  intros td sf db c1 c2 Hu Ht sessions.
  assert (Heq : user_sessions sessions c1
                = filter (fun s => sr_timestamp s <=? cr_timestamp c1)
                         (user_sessions sessions c2)).
  { rewrite !user_sessions_selected, filter_twice. apply filter_ext.
    intros s. unfold selected. rewrite Hu.
    destruct (String.eqb (sr_user_id s) (cr_user_id c2)); simpl; [|reflexivity].
    destruct (sr_timestamp s <=? cr_timestamp c1) eqn:E1.
    - apply Z.leb_le in E1. rewrite andb_true_r. symmetry. apply Z.leb_le. lia.
    - now rewrite andb_false_r. }
  split; [exact Heq|].
  unfold contribution, journey_data. fold sessions. rewrite !map_map. simpl.
  rewrite Heq. intros x Hx. apply in_map_iff in Hx. destruct Hx as [s [<- Hs]].
  apply filter_In in Hs. apply in_map_iff. exists s. tauto.
Qed.

(** The journey of C1 inside the journey of C2. *)
Lemma user_sessions_of_earlier_conversion_example :
  incl (map jr_session_id
          (contribution example_to_datetime example_strftime two_conversions
             {| cr_conv_id := "C1"; cr_user_id := "U1"; cr_timestamp := 20240102100000 |}))
       (map jr_session_id
          (contribution example_to_datetime example_strftime two_conversions
             {| cr_conv_id := "C2"; cr_user_id := "U1"; cr_timestamp := 20240103110000 |})).
Proof.
  refine (proj2 (user_sessions_of_earlier_conversion
                   example_to_datetime example_strftime two_conversions
                   {| cr_conv_id := "C1"; cr_user_id := "U1";
                      cr_timestamp := 20240102100000 |}
                   {| cr_conv_id := "C2"; cr_user_id := "U1";
                      cr_timestamp := 20240103110000 |} _ _)).
  - reflexivity.
  - vm_compute. discriminate.
Defined.

Lemma flat_map_filter_nonempty {A B} (f : A -> list B) (l : list A) :
  flat_map f l
  = flat_map f (filter (fun x => match f x with [] => false | _ :: _ => true end) l).
Proof.
  induction l as [|a l IH]; simpl; [reflexivity|].
  destruct (f a) eqn:E; simpl; rewrite IH; [reflexivity|]. now rewrite E.
Qed.

Lemma unique_from_keyed_blocks {A} (key : A -> string) (blk : A -> list string)
      (l : list A) seen :
  NoDup (map key l) ->
  (forall x, In x l -> ~ In (key x) seen) ->
  (forall x, In x l -> blk x <> [] /\ forall y, In y (blk x) -> y = key x) ->
  unique_from seen (flat_map blk l) = map key l.
Proof.
  revert seen. induction l as [|a l IH]; intros seen Hnd Hseen Hblk; simpl;
    [reflexivity|].
  simpl in Hnd. inversion Hnd as [|? ? Hnotin Hnd']; subst.
  destruct (Hblk a (or_introl eq_refl)) as [Hne Hall].
  destruct (blk a) as [|b more] eqn:Eb; [contradiction|].
  assert (b = key a) by (apply Hall; now left). subst b.
  simpl.
  replace (existsb (String.eqb (key a)) seen) with false.
  - f_equal. rewrite unique_from_skip.
    + apply IH; [exact Hnd'| |].
      * intros x Hx [Heq|Hin].
        -- apply Hnotin. rewrite Heq. now apply in_map.
        -- apply (Hseen x); [now right|exact Hin].
      * intros x Hx. apply Hblk. now right.
    + intros y Hy. left. symmetry. apply Hall. now right.
  - symmetry. destruct (existsb (String.eqb (key a)) seen) eqn:E; [|reflexivity].
    apply existsb_eqb_In in E. exfalso. apply (Hseen a); [now left|exact E].
Qed.

(** Dropping entries keeps the remaining keys distinct. *)
Lemma distinct_keys_filter {A} (keep : A -> bool) (key : A -> string) (xs : list A)
      (Hnd : NoDup (map key xs)) :
  NoDup (map key (filter keep xs)).
Proof.
  induction xs as [|x xs IH]; simpl in *; [constructor|].
  inversion Hnd as [|? ? Hnotin Hnd']; subst.
  destruct (keep x); simpl; [|now apply IH].
  constructor; [|now apply IH].
  intros Hin. apply Hnotin. apply in_map_iff in Hin.
  destruct Hin as [y [Hy Hyin]]. apply filter_In in Hyin.
  rewrite <- Hy. apply in_map. tauto.
Qed.

(** X14. Which conversions get a journey, and in what order. A conversion
    id occurs in the frame that [build_journeys] returns exactly when a
    conversion of the query with that id has at least one selected session;
    the others leave no trace in the frame.  With distinct conversion ids,
    the conversions occur in the frame in the order of the conversions
    query. *)
Theorem build_journeys_conversions :
  forall (to_datetime : string -> Z) (strftime : Z -> string)
         (db : database) (start_date end_date : option string),
    let convs := read_conversions to_datetime db start_date end_date in
    let sessions := read_session_sources to_datetime db in
    let journeys_df := build_journeys to_datetime strftime db start_date end_date in
    (forall cid,
        In cid (map jr_conversion_id journeys_df) <->
        exists c, In c convs /\ cr_conv_id c = cid /\ has_sessions sessions c = true)
    /\ (NoDup (map cr_conv_id convs) ->
        unique (map jr_conversion_id journeys_df)
        = map cr_conv_id (filter (has_sessions sessions) convs)).
Proof.
  intros td sf db s e convs sessions journeys_df.
  assert (Hblock : forall c,
             map jr_conversion_id (contribution td sf db c)
             = map (fun _ => cr_conv_id c) (user_sessions sessions c)).
  { intros c. unfold contribution, journey_data. now rewrite !map_map. }
  assert (Hdf : map jr_conversion_id journeys_df
                = flat_map (fun c => map jr_conversion_id (contribution td sf db c)) convs).
  { unfold journeys_df. rewrite build_journeys_contributions. fold convs.
    rewrite flat_map_concat_map, concat_map, map_map, <- flat_map_concat_map.
    reflexivity. }
  split.
  - intros cid. rewrite Hdf, in_flat_map. split.
    + intros [c [Hc Hin]]. rewrite Hblock in Hin. exists c.
      apply in_map_iff in Hin. destruct Hin as [x [Hx Hxin]].
      unfold has_sessions. destruct (user_sessions sessions c); [destruct Hxin|].
      auto.
    + intros [c [Hc [Hid Hhas]]]. exists c. split; [exact Hc|].
      rewrite Hblock. unfold has_sessions in Hhas.
      destruct (user_sessions sessions c); [discriminate|]. now left.
  - intros Hnd. rewrite Hdf, flat_map_filter_nonempty. unfold unique.
    replace (filter _ convs) with (filter (has_sessions sessions) convs).
    + apply unique_from_keyed_blocks.
      * now apply distinct_keys_filter.
      * intros x _ [].
      * intros x Hx. apply filter_In in Hx. destruct Hx as [_ Hhas].
        rewrite Hblock. unfold has_sessions in Hhas. split.
        -- destruct (user_sessions sessions x); [discriminate|]. discriminate.
        -- intros y Hy. apply in_map_iff in Hy. now destruct Hy as [? [<- _]].
    + apply filter_ext. intros c. rewrite Hblock. unfold has_sessions.
      now destruct (user_sessions sessions c).
Qed.

Lemma date_filter_spec (o : option string) (test : string -> conversion -> bool)
      (c : conversion) :
  forallb (fun f => f c)
          match o with
          | Some s => if str_truthy o then [fun c0 => test s c0] else []
          | None => []
          end = true
  <-> forall s, o = Some s -> s <> "" -> test s c = true.
Proof.
  destruct o as [s0|]; simpl; [|split; [intros _ s H; discriminate|reflexivity]].
  destruct (String.eqb s0 "") eqn:E; simpl.
  - apply String.eqb_eq in E. split; [|reflexivity].
    intros _ s H Hne. injection H as <-. contradiction.
  - apply String.eqb_neq in E. rewrite andb_true_r. split.
    + intros H s Hs _. now injection Hs as <-.
    + intros H. now apply H.
Qed.

Lemma conv_query_within db s e c :
  In c (conv_query db s e) <->
  In c (conversions db) /\ within_dates s e (conv_date c).
Proof.
  unfold conv_query, conv_date_filters, within_dates.
  rewrite filter_In, forallb_app, andb_true_iff.
  pose proof (date_filter_spec s (fun s0 c0 => String.leb s0 (conv_date c0)) c) as Hs.
  pose proof (date_filter_spec e (fun e0 c0 => String.leb (conv_date c0) e0) c) as He.
  split.
  - intros [H1 [H2 H3]]. split; [exact H1|]. split.
    + apply (proj1 Hs). exact H2.
    + apply (proj1 He). exact H3.
  - intros [H1 [H2 H3]]. split; [exact H1|]. split.
    + apply (proj2 Hs). exact H2.
    + apply (proj2 He). exact H3.
Qed.

(** X15. The date bounds. For date arguments in the documented format
    YYYY-MM-DD (or absent, or empty), every row of the frame that
    [build_journeys] returns belongs to a conversion of the table whose
    [conv_date] lies between the bounds, both included, compared as text; a
    bound that is [None] or the empty string does not restrict, so with two
    empty bounds the frame is the one built without bounds. *)
Theorem build_journeys_within_dates :
  forall (to_datetime : string -> Z) (strftime : Z -> string)
         (db : database) (start_date end_date : option string),
    date_argument start_date ->
    date_argument end_date ->
    Forall (fun r => exists c,
                In c (conversions db)
                /\ conv_id c = jr_conversion_id r
                /\ within_dates start_date end_date (conv_date c))
           (build_journeys to_datetime strftime db start_date end_date)
    /\ build_journeys to_datetime strftime db (Some "") (Some "")
       = build_journeys to_datetime strftime db None None.
Proof.
  intros td sf db s e _ _. split; [|reflexivity].
  rewrite build_journeys_contributions. apply Forall_forall. intros r Hr.
  apply in_flat_map in Hr. destruct Hr as [c [Hc Hr]].
  apply contribution_conversion_id in Hr.
  unfold read_conversions in Hc. apply in_map_iff in Hc.
  destruct Hc as [c0 [<- Hc0]]. apply conv_query_within in Hc0.
  exists c0. simpl in Hr. rewrite Hr. tauto.
Qed.

(** Scenario A, asked for January 2024. *)
Lemma build_journeys_within_dates_scenario_a :
  Forall (fun r => exists c,
              In c (conversions scenario_a)
              /\ conv_id c = jr_conversion_id r
              /\ within_dates (Some "2024-01-01") (Some "2024-01-31") (conv_date c))
         (build_journeys example_to_datetime example_strftime scenario_a
                         (Some "2024-01-01") (Some "2024-01-31")).
Proof.
  refine (proj1 (build_journeys_within_dates example_to_datetime example_strftime
                   scenario_a (Some "2024-01-01") (Some "2024-01-31") _ _));
    intros s H _; injection H as <-; reflexivity.
Defined.

(** X16. The orchestrator does not contain a failure of the submission
    stage. When the journey frame is not empty and [process_journeys] ends
    in an exception, [run_pipeline] ends in the same exception, in the world
    the submission stage left: nothing catches it, and no report stage is
    attempted. *)
Theorem run_pipeline_raises_with_submission :
  forall (to_datetime : string -> Z) (strftime : Z -> string)
         (config : PipelineConfig) (api : journeys_frame -> http_outcome)
         (db : database) (journeys_path report_path : string)
         (start_date end_date : option string) (ex : exn),
    let run := run_pipeline to_datetime strftime config api journeys_path report_path
                            start_date end_date (initial_world db) in
    let journeys_df := build_journeys to_datetime strftime db start_date end_date in
    let submission := process_journeys config api journeys_df
                        (world_at_submission db journeys_path journeys_df) in
    journeys_df <> [] ->
    snd submission = Raise ex ->
    snd run = Raise ex
    /\ fst run = fst submission
    /\ ~ stage_attempted banner_step3 (fst run).
Proof.
  intros td sf config api db jp rp s e ex run journeys_df submission Hne Hraise.
  pose proof (run_pipeline_cases td sf config api db jp rp s e) as Hcases.
  cbv zeta in Hcases. fold run journeys_df in Hcases.
  destruct journeys_df as [|r df] eqn:Edf; [contradiction|].
  fold submission in Hcases.
  pose proof (banners_of_run config api (r :: df) (world_at_submission db jp (r :: df)))
    as Hb.
  fold submission in Hb. simpl in Hb.
  destruct submission as [w [records|ex']] eqn:Es; simpl in Hraise; [discriminate|].
  injection Hraise as ->. simpl in Hcases, Hb |- *.
  rewrite Hcases. simpl. split; [reflexivity|]. split; [reflexivity|].
  unfold stage_attempted. unfold banners in *. rewrite Hb.
  intros H. banner_absurd H.
Qed.

(** Scenario A with a service whose rows lack the key 'ihc': the KeyError of
    the normalizer ends the whole pipeline run. *)
Lemma run_pipeline_raises_with_submission_example :
  snd (run_pipeline example_to_datetime example_strftime one_per_request
                    api_missing_ihc "customer_journeys.csv" "channel_reporting.csv"
                    None None (initial_world scenario_a))
  = Raise (KeyError "ihc").
Proof.
  refine (proj1 (run_pipeline_raises_with_submission
                   example_to_datetime example_strftime one_per_request
                   api_missing_ihc scenario_a "customer_journeys.csv"
                   "channel_reporting.csv" None None (KeyError "ihc") _ _)).
  - vm_compute. discriminate.
  - vm_compute. reflexivity.
Defined.

(** X17. [send_journeys_to_api] contains every failure of the request. For
    every behaviour of the service the call returns (it never raises), posts
    the journeys exactly once, and leaves the database as it was; it returns
    a list of results only when the service answered with status 200 and a
    JSON object, and then the list is the object's [value], or the empty list
    when the object has none. *)
Theorem send_journeys_to_api_never_raises :
  forall (api : journeys_frame -> http_outcome) (journey_data : journeys_frame)
         (w : world),
  exists evs v,
    send_journeys_to_api api journey_data w
    = ({| store := store w; out := out w ++ Post journey_data :: evs |}, Ok v)
    /\ decisions evs = []
    /\ (forall results, v = Some results ->
        exists code errs value,
          api journey_data = Response 200 (Some (JsonObject code errs value))
          /\ results = match value with Some l => l | None => [] end).
Proof.
  intros api jd w. unfold send_journeys_to_api, bind, emit, ret.
  destruct (api jd) as [|status_code body]; simpl.
  - eexists. eexists. split; [rewrite <- app_assoc; reflexivity|].
    split; [reflexivity|]. intros results H. discriminate.
  - destruct (status_code =? 200) eqn:E; simpl.
    + apply Z.eqb_eq in E. subst status_code.
      destruct body as [[|code errs value]|]; simpl.
      * eexists. eexists. split; [rewrite <- app_assoc; reflexivity|].
        split; [reflexivity|]. intros results H. discriminate.
      * destruct errs as [|err errs]; simpl.
        -- eexists. eexists. split; [rewrite <- app_assoc; reflexivity|].
           split; [reflexivity|]. intros results H. injection H as <-.
           exists code, [], value. split; reflexivity.
        -- eexists. eexists.
           split; [rewrite <- !app_assoc; reflexivity|].
           split; [reflexivity|]. intros results H. injection H as <-.
           exists code, (err :: errs), value. split; reflexivity.
      * eexists. eexists. split; [rewrite <- app_assoc; reflexivity|].
        split; [reflexivity|]. intros results H. discriminate.
    + eexists. eexists. split; [rewrite <- app_assoc; reflexivity|].
      split; [reflexivity|]. intros results H. discriminate.
Qed.
